(** * target-nats-kv: the Singer target that replicates records into a
      NATS JetStream key/value bucket.

    A shallow embedding of [persist_messages] from
    [meltano/load/target-nats-kv/src/target_nats_kv/__init__.py] and the
    properties of its per-message dispatch, key derivation, conflict
    resolution and checkpoint handling.

    Representation choices.
    - A Python [str] is represented by its UTF-8 encoding as a [string] of
      bytes.  Code-point order on [str] coincides with byte order on the
      encodings, and every character the program tests for is ASCII, so
      [len(s) == 0], [s[0] == "$"], [c in [" ", ".", "*", ">", "\0"]],
      [needle in s] and [a > b] are the same tests on the encodings.
      [bytes.decode("utf-8")] is then the identity on well-formed input and
      raises otherwise.
    - A Python [dict] with [str] keys that is serialised is an association
      list in insertion order; the four registries of [persist_messages] are
      [gmap]s.
    - The libraries the program imports ([singer], [jsonschema],
      [simplejson], [datetime]) are an interface, [Libs]; the program is
      written against the interface and a small reference instance is given
      to run it on concrete input.
    - The bucket is a finite map from keys to entries with a revision; every
      request the program sends is recorded in a trace. *)

From stdpp Require Import gmap strings list fin_maps pretty.
From Stdlib Require Import Ascii ZArith.

Set Warnings "-register-all".

(** ** Python values *)

Module Py.

(** JSON-typed values as [simplejson] produces them.  A number that is not
    an integer (a [float] or a [Decimal]) is carried as the text [str()]
    gives for it. *)
Inductive json :=
| JNull
| JBool (b : bool)
| JInt (n : Z)
| JNum (text : string)
| JStr (s : string)
| JList (l : list json)
| JObj (d : list (string * json)).

(** A [dict] with [str] keys, in insertion order. *)
Abbreviation dict := (list (string * json)).

(** [k in d] *)
Fixpoint dict_mem (k : string) (d : dict) : bool :=
  match d with
  | [] => false
  | (k', _) :: d' => if String.eqb k k' then true else dict_mem k d'
  end.

(** [d[k]], [None] standing for [KeyError] *)
Fixpoint dict_get (k : string) (d : dict) : option json :=
  match d with
  | [] => None
  | (k', v) :: d' => if String.eqb k k' then Some v else dict_get k d'
  end.

(** [d[k] = v]: an existing key keeps its position, a new key goes last. *)
Fixpoint dict_set (k : string) (v : json) (d : dict) : dict :=
  match d with
  | [] => [(k, v)]
  | (k', v') :: d' =>
      if String.eqb k k' then (k', v) :: d' else (k', v') :: dict_set k v d'
  end.

(** [needle in hay] on [str] *)
Fixpoint contains (needle hay : string) : bool :=
  String.prefix needle hay ||
  match hay with
  | EmptyString => false
  | String _ hay' => contains needle hay'
  end.

(** [a > b] on [str]: lexicographic on code points. *)
Definition str_gt (a b : string) : bool :=
  match String.compare a b with
  | Gt => true
  | _ => false
  end.

(** [a < b] on [str] *)
Definition str_lt (a b : string) : bool := str_gt b a.

Definition byte_in (lo hi : N) (c : ascii) : bool :=
  ((lo <=? N_of_ascii c) && (N_of_ascii c <=? hi))%N.

(** Well-formed UTF-8, as the strict decoder of [bytes.decode("utf-8")]
    accepts it: shortest forms only, no surrogates, at most U+10FFFF. *)
Fixpoint utf8_valid (s : string) : bool :=
  match s with
  | EmptyString => true
  | String c0 s1 =>
    if byte_in 0 127 c0 then utf8_valid s1 else
    match s1 with
    | EmptyString => false
    | String c1 s2 =>
      if byte_in 194 223 c0 then byte_in 128 191 c1 && utf8_valid s2 else
      match s2 with
      | EmptyString => false
      | String c2 s3 =>
        if byte_in 224 239 c0 then
          (if byte_in 224 224 c0 then byte_in 160 191 c1
           else if byte_in 237 237 c0 then byte_in 128 159 c1
           else byte_in 128 191 c1)
          && byte_in 128 191 c2 && utf8_valid s3
        else
        match s3 with
        | EmptyString => false
        | String c3 s4 =>
          byte_in 240 244 c0 &&
          (if byte_in 240 240 c0 then byte_in 144 191 c1
           else if byte_in 244 244 c0 then byte_in 128 143 c1
           else byte_in 128 191 c1)
          && byte_in 128 191 c2 && byte_in 128 191 c3 && utf8_valid s4
        end
      end
    end
  end.

End Py.
Export Py.

(** ** Exceptions, requests and log records *)

Inductive exn :=
| JSONDecodeError
| MessageError          (* any other exception of [singer.parse_message] *)
| RecordBeforeSchema (stream : string)
                        (* [Exception("A record for stream ... was
                           encountered before a corresponding schema")] *)
| KeyError
| TypeError
| UnicodeDecodeError
| SchemaError           (* [jsonschema.SchemaError] *)
| KeyNotFoundError      (* [nats.js.errors.KeyNotFoundError] *)
| KeyWrongLastSequenceError.

Global Instance exn_eq_dec : EqDecision exn.
Proof. solve_decision. Defined.

(** A request sent to the bucket through [kv_client]. *)
Inductive Op :=
| Get (key : string)
| Create (key value : string)
| Update (key value : string) (last : Z)
| Put (key value : string).

Definition op_key (o : Op) : string :=
  match o with
  | Get k | Create k _ | Update k _ _ | Put k _ => k
  end.

(** A request that writes. *)
Definition is_write (o : Op) : bool :=
  match o with
  | Get _ => false
  | _ => true
  end.

(** The calls on [logger], one constructor per call site. *)
Inductive LogRecord :=
| ErrorUnableToParse (message : string)
| WarnNeedsOneKeyProperty (stream : string)
| WarnMissingKeyProperty (stream key_property : string)
| WarnEmptyPrimaryKey (stream : string)
| WarnPrimaryKeyDollar (stream : string)
| WarnInvalidCharacter (stream : string) (char : ascii)
| WarnSchemaValidation (primary_key_value stream message path : string)
| WarnEmptyExistingValue (stream primary_key_value : string)
| WarnTargetDeleted (stream primary_key_value : string)
| DebugNotNewer (stream primary_key_value : string)
| DebugSettingState (value : json)
| WarnActivateVersion (stream : string) (version : json)
| WarnUnknownMessage.

(** ** The key/value bucket *)

Module KV.

(** What [kv_client.get] returns: [Entry.value] is [Optional[bytes]]. *)
Record Entry := { value : option string; revision : Z }.

(** The bucket: its live keys and the sequence number of the last write. *)
Record Bucket := { entries : gmap string Entry; seq : Z }.

Definition write (k v : string) (b : Bucket) : Bucket :=
  {| entries := <[k := {| value := Some v; revision := (seq b + 1)%Z |}]> (entries b);
     seq := (seq b + 1)%Z |}.

(** [get(key) -> (value, revision) | notFound] *)
Definition get (k : string) (b : Bucket) : exn + Entry :=
  match entries b !! k with
  | Some e => inr e
  | None => inl KeyNotFoundError
  end.

(** [create(key, value) -> ok | alreadyExists] *)
Definition create (k v : string) (b : Bucket) : exn + Bucket :=
  match entries b !! k with
  | Some _ => inl KeyWrongLastSequenceError
  | None => inr (write k v b)
  end.

(** [update(key, value, expectedRevision) -> ok | revisionMismatch] *)
Definition update (k v : string) (last : Z) (b : Bucket) : exn + Bucket :=
  match entries b !! k with
  | Some e =>
      if (revision e =? last)%Z then inr (write k v b)
      else inl KeyWrongLastSequenceError
  | None =>
      if (last =? 0)%Z then inr (write k v b)
      else inl KeyWrongLastSequenceError
  end.

(** [put(key, value) -> ok] *)
Definition put (k v : string) (b : Bucket) : Bucket := write k v b.

End KV.

(** ** Messages and the imported libraries *)

(** What [singer.parse_message] returns.  [time_extracted] is the parsed
    [datetime], carried as the text of its [isoformat()]; [UnknownMessage]
    is any result that is none of the four message classes. *)
Inductive Message :=
| RecordMessage (stream : string) (record : dict)
                (time_extracted : option string)
| StateMessage (value : json)
| SchemaMessage (stream : string) (schema : json)
                (key_properties : list string)
                (bookmark_properties : option (list string))
| ActivateVersionMessage (stream : string) (version : json)
| UnknownMessage.

Inductive ParseResult :=
| Parsed (o : Message)
| ParseRaises (e : exn).

(** [Draft4Validator(schema).validate(record)] returns, raises
    [ValidationError] with a message and a path, or raises [SchemaError]. *)
Inductive Validation :=
| Valid
| ValidationError (message path : string)
| InvalidSchema.

(** The imported libraries. *)
Class Libs := {
  (** [singer.parse_message(message)] *)
  parse_message : string -> ParseResult;
  (** [Draft4Validator(schema).validate(record)] *)
  validate : json -> dict -> Validation;
  (** [json.dumps(record).encode("utf-8")] *)
  json_dumps : dict -> string;
  (** [json.loads(text)], [None] standing for [JSONDecodeError] *)
  json_loads : string -> option json;
  (** [str()] of a list or a dict *)
  py_repr : json -> string;
  (** [datetime.datetime.now(tz=datetime.UTC).isoformat()], by the number
      of earlier readings of the clock *)
  utcnow_isoformat : nat -> string
}.

(** [str(v)] *)
Definition py_str `{Libs} (v : json) : string :=
  match v with
  | JNull => "None"
  | JBool true => "True"
  | JBool false => "False"
  | JInt n => pretty n
  | JNum text => text
  | JStr s => s
  | JList _ | JObj _ => py_repr v
  end.

(** [k in v] for a decoded JSON value [v] *)
Definition py_in (k : string) (v : json) : exn + bool :=
  match v with
  | JObj d => inr (dict_mem k d)
  | JList l =>
      inr (existsb (fun x => match x with JStr s => String.eqb k s | _ => false end) l)
  | JStr s => inr (contains k s)
  | JNull | JBool _ | JInt _ | JNum _ => inl TypeError
  end.

(** [v[k]] for a decoded JSON value [v] and a [str] [k] *)
Definition py_getitem (k : string) (v : json) : exn + json :=
  match v with
  | JObj d =>
      match dict_get k d with
      | Some x => inr x
      | None => inl KeyError
      end
  | _ => inl TypeError
  end.

(** [bytes.decode("utf-8")] *)
Definition decode_utf8 (b : string) : exn + string :=
  if utf8_valid b then inr b else inl UnicodeDecodeError.

(** ** The state of a run *)

(** The local variables of [persist_messages] ([state] and the four
    registries), the bucket behind [kv_client], the requests sent to it,
    the log, and the number of clock readings. *)
Record World := {
  state : json;
  schemas : gmap string json;
  key_properties : gmap string (list string);
  bookmarks : gmap string (option (list string));
  validators : gmap string json;
  bucket : KV.Bucket;
  requests : list Op;
  log : list LogRecord;
  clock_reads : nat
}.

Definition set_state (s : json) (w : World) : World :=
  {| state := s; schemas := schemas w; key_properties := key_properties w;
     bookmarks := bookmarks w; validators := validators w;
     bucket := bucket w; requests := requests w; log := log w;
     clock_reads := clock_reads w |}.

Definition set_bucket (b : KV.Bucket) (w : World) : World :=
  {| state := state w; schemas := schemas w; key_properties := key_properties w;
     bookmarks := bookmarks w; validators := validators w;
     bucket := b; requests := requests w; log := log w;
     clock_reads := clock_reads w |}.

Definition add_request (o : Op) (w : World) : World :=
  {| state := state w; schemas := schemas w; key_properties := key_properties w;
     bookmarks := bookmarks w; validators := validators w;
     bucket := bucket w; requests := requests w ++ [o]; log := log w;
     clock_reads := clock_reads w |}.

Definition add_log (r : LogRecord) (w : World) : World :=
  {| state := state w; schemas := schemas w; key_properties := key_properties w;
     bookmarks := bookmarks w; validators := validators w;
     bucket := bucket w; requests := requests w; log := log w ++ [r];
     clock_reads := clock_reads w |}.

Definition tick (w : World) : World :=
  {| state := state w; schemas := schemas w; key_properties := key_properties w;
     bookmarks := bookmarks w; validators := validators w;
     bucket := bucket w; requests := requests w; log := log w;
     clock_reads := S (clock_reads w) |}.

(** The four assignments of the [SchemaMessage] branch. *)
Definition register (stream : string) (schema : json)
    (key_props : list string) (bookmark_props : option (list string))
    (w : World) : World :=
  {| state := state w;
     schemas := <[stream := schema]> (schemas w);
     key_properties := <[stream := key_props]> (key_properties w);
     bookmarks := <[stream := bookmark_props]> (bookmarks w);
     validators := <[stream := schema]> (validators w);
     bucket := bucket w; requests := requests w; log := log w;
     clock_reads := clock_reads w |}.

(** The world a run starts in: [state = None], empty registries, a given
    bucket.  [state] holds a Python value, [JNull] being [None]. *)
Definition initial (b : KV.Bucket) : World :=
  {| state := JNull; schemas := ∅; key_properties := ∅; bookmarks := ∅;
     validators := ∅; bucket := b; requests := []; log := [];
     clock_reads := 0 |}.

(** ** Control flow of one loop iteration *)

(** How a piece of the loop body ends: it runs on to the next statement,
    it executes [continue], or it raises. *)
Inductive Flow (A : Type) :=
| Next (a : A)
| Continue
| Raise (e : exn).
Arguments Next {A} a.
Arguments Continue {A}.
Arguments Raise {A} e.

Definition M (A : Type) : Type := World -> World * Flow A.

Global Instance M_ret : MRet M := fun A a w => (w, Next a).

Global Instance M_bind : MBind M := fun A B k m w =>
  match m w with
  | (w', Next a) => k a w'
  | (w', Continue) => (w', Continue)
  | (w', Raise e) => (w', Raise e)
  end.

Definition continue {A} : M A := fun w => (w, Continue).
Definition raise {A} (e : exn) : M A := fun w => (w, Raise e).
Definition world : M World := fun w => (w, Next w).
Definition modify (f : World -> World) : M unit := fun w => (f w, Next tt).
Definition logger (r : LogRecord) : M unit := modify (add_log r).

(** A library call that returns or raises. *)
Definition lift {A} (r : exn + A) : M A :=
  match r with
  | inr a => mret a
  | inl e => raise e
  end.

(** [try: body except e: handler] *)
Definition try_except {A} (body : M A) (e : exn) (handler : M A) : M A :=
  fun w =>
    match body w with
    | (w', Raise e') => if decide (e' = e) then handler w' else (w', Raise e')
    | r => r
    end.

(** [await kv_client.get(key)] *)
Definition kv_get (key : string) : M KV.Entry :=
  modify (add_request (Get key));;
  w ← world;
  lift (KV.get key (bucket w)).

(** [await kv_client.create(key=key, value=value)] *)
Definition kv_create (key value : string) : M unit :=
  modify (add_request (Create key value));;
  w ← world;
  b ← lift (KV.create key value (bucket w));
  modify (set_bucket b).

(** [await kv_client.update(key=key, value=value, last=last)] *)
Definition kv_update (key value : string) (last : Z) : M unit :=
  modify (add_request (Update key value last));;
  w ← world;
  b ← lift (KV.update key value last (bucket w));
  modify (set_bucket b).

(** [await kv_client.put(key=key, value=value)] *)
Definition kv_put (key value : string) : M unit :=
  modify (add_request (Put key value));;
  w ← world;
  modify (set_bucket (KV.put key value (bucket w))).

(** [datetime.datetime.now(tz=datetime.UTC).isoformat()] *)
Definition now_isoformat `{Libs} : M string :=
  w ← world;
  modify tick;;
  mret (utcnow_isoformat (clock_reads w)).

(** [for x in xs: body].  A [continue] executed by the body ends the
    current iteration of this loop, the innermost one around it, and the
    loop goes on with the next element; an exception leaves the loop. *)
Fixpoint for_in {A} (xs : list A) (body : A -> M unit) : M unit :=
  fun w =>
    match xs with
    | [] => (w, Next tt)
    | x :: xs' =>
        match body x w with
        | (w', Next _) | (w', Continue) => for_in xs' body w'
        | (w', Raise e) => (w', Raise e)
        end
    end.

(** ** [persist_messages] *)

Section Target.

Context `{Libs}.
Variable key_prefix : string.

(** [char in [" ", ".", "*", ">", "\0"]] (line 124) *)
Definition invalid_character (char : ascii) : bool :=
  existsb (Ascii.eqb char) [" "; "."; "*"; ">"; "000"]%char.

(** Lines 123-133: the loop over the characters of the primary key.  The
    [continue] of line 133 is a statement of the body of this [for]. *)
Definition scan_primary_key (stream primary_key_value : string) : M unit :=
  for_in (String.list_ascii_of_string primary_key_value) (fun char =>
    if invalid_character char then
      logger (WarnInvalidCharacter stream char);;
      continue
    else mret tt).

(** Lines 84-133: the checks on the key property and on the primary key;
    the result is [primary_key_value]. *)
Definition key_checks (stream : string) (record : dict) : M string :=
  w ← world;
  match key_properties w !! stream with
  | Some [key_property] =>
      if negb (dict_mem key_property record) then
        logger (WarnMissingKeyProperty stream key_property);;
        continue
      else
        v ← lift (py_getitem key_property (JObj record));
        let primary_key_value := py_str v in
        if (String.length primary_key_value =? 0)%nat then
          logger (WarnEmptyPrimaryKey stream);;
          continue
        else if bool_decide (String.get 0 primary_key_value = Some "$"%char) then
          logger (WarnPrimaryKeyDollar stream);;
          continue
        else
          scan_primary_key stream primary_key_value;;
          mret primary_key_value
  | _ =>
      logger (WarnNeedsOneKeyProperty stream);;
      continue
  end.

(** Lines 135-148: [validators[stream].validate(o.record)]. *)
Definition schema_check (stream primary_key_value : string) (record : dict)
    : M unit :=
  w ← world;
  match validators w !! stream with
  | None => raise KeyError
  | Some schema =>
      match validate schema record with
      | Valid => mret tt
      | ValidationError message path =>
          logger (WarnSchemaValidation primary_key_value stream message path);;
          continue
      | InvalidSchema => raise SchemaError
      end
  end.

(** Line 150: [key = f"{key_prefix}{stream}.{primary_key_value}"]. *)
Definition store_key (stream primary_key_value : string) : string :=
  key_prefix +:+ stream +:+ "." +:+ primary_key_value.

(** Lines 152-153: the extraction timestamp. *)
Definition add_extracted_at (time_extracted : option string) (record : dict)
    : dict :=
  match time_extracted with
  | Some t =>
      if negb (dict_mem "_sdc_extracted_at" record)
      then dict_set "_sdc_extracted_at" (JStr t) record
      else record
  | None => record
  end.

(** Lines 155-158: the receipt timestamp. *)
Definition add_received_at (record : dict) : M dict :=
  if negb (dict_mem "_sdc_received_at" record) then
    now ← now_isoformat;
    mret (dict_set "_sdc_received_at" (JStr now) record)
  else mret record.

(** Lines 160-164: the first bookmark property of the stream, if any. *)
Definition bookmark_attr_of (stream : string) (w : World) : option string :=
  match bookmarks w !! stream with
  | Some (Some (attr :: _)) => Some attr
  | _ => None
  end.

(** Lines 174-223: the body of the [try]. *)
Definition compare_and_update (stream primary_key_value key bookmark_attr : string)
    (bookmark_source : json) (record : dict) : M unit :=
  current ← kv_get key;
  match KV.value current with
  | None | Some EmptyString =>
      logger (WarnEmptyExistingValue stream primary_key_value);;
      continue
  | Some bytes =>
      current_value ← lift (decode_utf8 bytes);
      current_record ← lift (match json_loads current_value with
                             | Some j => inr j
                             | None => inl JSONDecodeError
                             end);
      if contains "_sdc_deleted_at" current_value then
        logger (WarnTargetDeleted stream primary_key_value);;
        continue
      else
        present ← lift (py_in bookmark_attr current_record);
        bookmark_target ← (if present : bool
                           then lift (py_getitem bookmark_attr current_record)
                           else mret (JStr EmptyString));
        if str_gt (py_str bookmark_source) (py_str bookmark_target) then
          kv_update key (json_dumps record) (KV.revision current);;
          continue
        else
          logger (DebugNotNewer stream primary_key_value);;
          continue
  end.

(** Lines 166-169: the bookmark of the record. *)
Definition bookmark_source_of (bookmark_attr : string) (record : dict)
    : M json :=
  if dict_mem bookmark_attr record
  then lift (py_getitem bookmark_attr (JObj record))
  else mret (JStr EmptyString).

(** Lines 160-236: the choice between the bookmark comparison and the
    plain put. *)
Definition resolve (stream primary_key_value key : string) (record : dict)
    : M unit :=
  w ← world;
  match bookmark_attr_of stream w with
  | Some bookmark_attr =>
      bookmark_source ← bookmark_source_of bookmark_attr record;
      try_except
        (compare_and_update stream primary_key_value key bookmark_attr
                            bookmark_source record)
        KeyNotFoundError
        (kv_create key (json_dumps record))
  | None => kv_put key (json_dumps record)
  end.

(** Lines 77-236: the [RecordMessage] branch up to, and without, the
    assignment [state = None] of line 238. *)
Definition on_record (stream : string) (record : dict)
    (time_extracted : option string) : M unit :=
  w ← world;
  match schemas w !! stream with
  | None => raise (RecordBeforeSchema stream)
  | Some _ =>
      primary_key_value ← key_checks stream record;
      schema_check stream primary_key_value record;;
      let key := store_key stream primary_key_value in
      record ← add_received_at (add_extracted_at time_extracted record);
      resolve stream primary_key_value key record
  end.

(** Lines 76-254: the dispatch on the class of the message.  [state] is a
    Python value, [JNull] being [None].  The call
    [adjust_decimal_precision_for_schema] of line 245 changes the precision
    of the decimal context and none of the variables modelled here. *)
Definition on_message (o : Message) : M unit :=
  match o with
  | RecordMessage stream record time_extracted =>
      on_record stream record time_extracted;;
      modify (set_state JNull)
  | StateMessage value =>
      logger (DebugSettingState value);;
      modify (set_state value)
  | SchemaMessage stream schema key_props bookmark_props =>
      modify (register stream schema key_props bookmark_props)
  | ActivateVersionMessage stream version =>
      logger (WarnActivateVersion stream version)
  | UnknownMessage =>
      logger WarnUnknownMessage
  end.

(** Lines 70-74: [singer.parse_message] under its [try]. *)
Definition parse (message : string) : M Message :=
  match parse_message message with
  | Parsed o => mret o
  | ParseRaises JSONDecodeError =>
      logger (ErrorUnableToParse message);;
      raise JSONDecodeError
  | ParseRaises e => raise e
  end.

(** Lines 69-254: the body of the loop over the input lines. *)
Definition loop_body (message : string) : M unit :=
  o ← parse message;
  on_message o.

(** [persist_messages(kv_client, key_prefix)] on the lines read from
    standard input. *)
Definition persist_messages (input : list string) : M json :=
  for_in input loop_body;;
  w ← world;
  mret (state w).

End Target.

(** ** A reference instance of the libraries

    Enough of [simplejson], [singer] and [jsonschema] to run
    [persist_messages] on concrete input lines.  The fragment: JSON text in
    ASCII, integers as the only numbers, the escapes of one character in
    strings; the keywords [type], [required], [properties] and
    [additionalProperties] of a Draft 4 schema.  Outside the fragment the
    instance reports an error where a library may not; the theorems below
    hold for every instance of [Libs] and use this one only where they run
    the program on a concrete input. *)

Module Ref.

Definition dquote : ascii := "034"%char.
Definition backslash : ascii := "092"%char.

(** JSON text is written in this file with an apostrophe in place of each
    double quote; [jq] gives the text itself. *)
Fixpoint jq (s : string) : string :=
  match s with
  | EmptyString => EmptyString
  | String c s' => String (if Ascii.eqb c "'"%char then dquote else c) (jq s')
  end.

Definition is_ws (c : ascii) : bool :=
  existsb (Ascii.eqb c) [" "; "009"; "010"; "013"]%char.

Definition is_digit (c : ascii) : bool := byte_in 48 57 c.

Fixpoint skip_ws (s : string) : string :=
  match s with
  | String c s' => if is_ws c then skip_ws s' else s
  | EmptyString => s
  end.

(** The character an escape [\c] stands for. *)
Definition unescape (c : ascii) : option ascii :=
  if Ascii.eqb c dquote then Some dquote
  else if Ascii.eqb c backslash then Some backslash
  else if Ascii.eqb c "/" then Some "/"%char
  else if Ascii.eqb c "b" then Some "008"%char
  else if Ascii.eqb c "f" then Some "012"%char
  else if Ascii.eqb c "n" then Some "010"%char
  else if Ascii.eqb c "r" then Some "013"%char
  else if Ascii.eqb c "t" then Some "009"%char
  else None.

(** The rest of a string literal after its opening quote. *)
Fixpoint scan_string (s acc : string) : option (string * string) :=
  match s with
  | EmptyString => None
  | String c s' =>
      if Ascii.eqb c dquote then Some (acc, s')
      else if Ascii.eqb c backslash then
        match s' with
        | String e s'' =>
            match unescape e with
            | Some c' => scan_string s'' (acc +:+ String c' EmptyString)
            | None => None
            end
        | EmptyString => None
        end
      else if byte_in 32 127 c then scan_string s' (acc +:+ String c EmptyString)
      else None
  end.

Fixpoint scan_digits (s : string) (acc : Z) : Z * string :=
  match s with
  | String c s' =>
      if is_digit c
      then scan_digits s' (10 * acc + Z.of_N (N_of_ascii c) - 48)%Z
      else (acc, s)
  | EmptyString => (acc, s)
  end.

(** An optional minus sign, then 0 or a digit sequence without a leading
    0, not followed by a fraction or an exponent. *)
Definition scan_int (s : string) : option (Z * string) :=
  let '(neg, s1) :=
    match s with
    | String "-" s' => (true, s')
    | _ => (false, s)
    end in
  match s1 with
  | String c s2 =>
      if is_digit c then
        let '(n, rest) :=
          if Ascii.eqb c "0" then (0%Z, s2) else scan_digits s1 0 in
        match rest with
        | String c' _ =>
            if is_digit c' || existsb (Ascii.eqb c') ["."; "e"; "E"]%char
            then None
            else Some (if neg : bool then (- n)%Z else n, rest)
        | EmptyString => Some (if neg : bool then (- n)%Z else n, rest)
        end
      else None
  | EmptyString => None
  end.

(** A JSON value at the head of [s], and the text after it. *)
Fixpoint scan_value (fuel : nat) (s : string) : option (json * string) :=
  match fuel with
  | O => None
  | S fuel =>
      match skip_ws s with
      | String "n" (String "u" (String "l" (String "l" rest))) =>
          Some (JNull, rest)
      | String "t" (String "r" (String "u" (String "e" rest))) =>
          Some (JBool true, rest)
      | String "f" (String "a" (String "l" (String "s" (String "e" rest)))) =>
          Some (JBool false, rest)
      | String "[" rest =>
          match skip_ws rest with
          | String "]" rest' => Some (JList [], rest')
          | _ => scan_elements fuel rest []
          end
      | String "{" rest =>
          match skip_ws rest with
          | String "}" rest' => Some (JObj [], rest')
          | _ => scan_members fuel rest []
          end
      | String c rest =>
          if Ascii.eqb c dquote then
            match scan_string rest EmptyString with
            | Some (str, rest') => Some (JStr str, rest')
            | None => None
            end
          else
            match scan_int (String c rest) with
            | Some (n, rest') => Some (JInt n, rest')
            | None => None
            end
      | EmptyString => None
      end
  end
with scan_elements (fuel : nat) (s : string) (acc : list json)
    : option (json * string) :=
  match fuel with
  | O => None
  | S fuel =>
      match scan_value fuel s with
      | Some (v, rest) =>
          match skip_ws rest with
          | String "," rest' => scan_elements fuel rest' (acc ++ [v])
          | String "]" rest' => Some (JList (acc ++ [v]), rest')
          | _ => None
          end
      | None => None
      end
  end
with scan_members (fuel : nat) (s : string) (acc : dict)
    : option (json * string) :=
  match fuel with
  | O => None
  | S fuel =>
      match skip_ws s with
      | String c rest =>
          if Ascii.eqb c dquote then
            match scan_string rest EmptyString with
            | Some (k, rest1) =>
                match skip_ws rest1 with
                | String ":" rest2 =>
                    match scan_value fuel rest2 with
                    | Some (v, rest3) =>
                        match skip_ws rest3 with
                        | String "," rest' =>
                            scan_members fuel rest' (dict_set k v acc)
                        | String "}" rest' =>
                            Some (JObj (dict_set k v acc), rest')
                        | _ => None
                        end
                    | None => None
                    end
                | _ => None
                end
            | None => None
            end
          else None
      | EmptyString => None
      end
  end.

(** [json.loads(text)] *)
Definition loads (text : string) : option json :=
  match scan_value (2 * String.length text + 2) text with
  | Some (v, rest) =>
      match skip_ws rest with
      | EmptyString => Some v
      | _ => None
      end
  | None => None
  end.

Definition char (c : ascii) : string := String c EmptyString.

Fixpoint join (sep : string) (l : list string) : string :=
  match l with
  | [] => EmptyString
  | [x] => x
  | x :: l' => x +:+ sep +:+ join sep l'
  end.

Definition hex_digit (n : N) : ascii :=
  default "0"%char (String.get (N.to_nat n) "0123456789abcdef").

Definition hex2 (n : N) : string :=
  char (hex_digit (n / 16 mod 16)) +:+ char (hex_digit (n mod 16)).

(** A string literal of JSON text in ASCII. *)
Fixpoint quote_body (s : string) : string :=
  match s with
  | EmptyString => EmptyString
  | String c s' =>
      (if Ascii.eqb c dquote then char backslash +:+ char dquote
       else if Ascii.eqb c backslash then char backslash +:+ char backslash
       else if Ascii.eqb c "010" then char backslash +:+ "n"
       else if Ascii.eqb c "013" then char backslash +:+ "r"
       else if Ascii.eqb c "009" then char backslash +:+ "t"
       else if Ascii.eqb c "012" then char backslash +:+ "f"
       else if Ascii.eqb c "008" then char backslash +:+ "b"
       else if byte_in 32 126 c then char c
       else char backslash +:+ "u00" +:+ hex2 (N_of_ascii c))
      +:+ quote_body s'
  end.

Definition quote (s : string) : string :=
  char dquote +:+ quote_body s +:+ char dquote.

(** [json.dumps(v)] with the default separators. *)
Fixpoint dumps (v : json) : string :=
  match v with
  | JNull => "null"
  | JBool true => "true"
  | JBool false => "false"
  | JInt n => pretty n
  | JNum text => text
  | JStr s => quote s
  | JList l => "[" +:+ join ", " (map dumps l) +:+ "]"
  | JObj d =>
      "{" +:+ join ", " (map (fun kv => quote (fst kv) +:+ ": " +:+ dumps (snd kv)) d)
          +:+ "}"
  end.

(** [repr(s)] for a [str] in ASCII. *)
Fixpoint repr_body (q : ascii) (s : string) : string :=
  match s with
  | EmptyString => EmptyString
  | String c s' =>
      (if Ascii.eqb c q then char backslash +:+ char q
       else if Ascii.eqb c backslash then char backslash +:+ char backslash
       else if Ascii.eqb c "010" then char backslash +:+ "n"
       else if Ascii.eqb c "013" then char backslash +:+ "r"
       else if Ascii.eqb c "009" then char backslash +:+ "t"
       else if byte_in 32 126 c then char c
       else char backslash +:+ "x" +:+ hex2 (N_of_ascii c))
      +:+ repr_body q s'
  end.

Definition repr_str (s : string) : string :=
  let q := if contains "'" s && negb (contains (char dquote) s)
           then dquote else "'"%char in
  char q +:+ repr_body q s +:+ char q.

(** [repr(v)] *)
Fixpoint repr (v : json) : string :=
  match v with
  | JNull => "None"
  | JBool true => "True"
  | JBool false => "False"
  | JInt n => pretty n
  | JNum text => text
  | JStr s => repr_str s
  | JList l => "[" +:+ join ", " (map repr l) +:+ "]"
  | JObj d =>
      "{" +:+ join ", " (map (fun kv => repr_str (fst kv) +:+ ": " +:+ repr (snd kv)) d)
          +:+ "}"
  end.

Definition strings_of (l : list json) : option (list string) :=
  mapM (fun x => match x with JStr s => Some s | _ => None end) l.

(** [singer.parse_message(message)] *)
Definition ref_parse_message (message : string) : ParseResult :=
  match loads message with
  | None => ParseRaises JSONDecodeError
  | Some (JObj obj) =>
      match dict_get "type" obj with
      | None => ParseRaises MessageError
      | Some (JStr type) =>
          if String.eqb type "RECORD" then
            match dict_get "stream" obj, dict_get "record" obj with
            | Some (JStr stream), Some (JObj record) =>
                Parsed (RecordMessage stream record
                          match dict_get "time_extracted" obj with
                          | Some (JStr (String c t)) => Some (String c t)
                          | _ => None
                          end)
            | _, _ => ParseRaises MessageError
            end
          else if String.eqb type "SCHEMA" then
            match dict_get "stream" obj, dict_get "schema" obj,
                  dict_get "key_properties" obj with
            | Some (JStr stream), Some schema, Some (JList keys) =>
                match strings_of keys, dict_get "bookmark_properties" obj with
                | Some keys, (None | Some JNull) =>
                    Parsed (SchemaMessage stream schema keys None)
                | Some keys, Some (JStr b) =>
                    Parsed (SchemaMessage stream schema keys (Some [b]))
                | Some keys, Some (JList bs) =>
                    match strings_of bs with
                    | Some bs => Parsed (SchemaMessage stream schema keys (Some bs))
                    | None => ParseRaises MessageError
                    end
                | _, _ => ParseRaises MessageError
                end
            | _, _, _ => ParseRaises MessageError
            end
          else if String.eqb type "STATE" then
            match dict_get "value" obj with
            | Some value => Parsed (StateMessage value)
            | None => ParseRaises MessageError
            end
          else if String.eqb type "ACTIVATE_VERSION" then
            match dict_get "stream" obj, dict_get "version" obj with
            | Some (JStr stream), Some version =>
                Parsed (ActivateVersionMessage stream version)
            | _, _ => ParseRaises MessageError
            end
          else Parsed UnknownMessage
      | Some _ => Parsed UnknownMessage
      end
  | Some _ => ParseRaises MessageError
  end.

Definition has_type (type : string) (instance : json) : bool :=
  match instance with
  | JNull => String.eqb type "null"
  | JBool _ => String.eqb type "boolean"
  | JInt _ => String.eqb type "integer" || String.eqb type "number"
  | JNum _ => String.eqb type "number"
  | JStr _ => String.eqb type "string"
  | JList _ => String.eqb type "array"
  | JObj _ => String.eqb type "object"
  end.

Definition check_type (arg : json) (path : list string) (instance : json)
    : Validation :=
  match arg with
  | JStr type =>
      if has_type type instance then Valid
      else ValidationError (repr instance +:+ " is not of type " +:+ repr_str type)
                           (join "." path)
  | JList types =>
      match strings_of types with
      | Some types =>
          if existsb (fun type => has_type type instance) types then Valid
          else ValidationError
                 (repr instance +:+ " is not of type " +:+ join ", " (map repr_str types))
                 (join "." path)
      | None => InvalidSchema
      end
  | _ => InvalidSchema
  end.

Definition check_required (arg : json) (path : list string) (instance : json)
    : Validation :=
  match arg, instance with
  | JList names, JObj d =>
      match strings_of names with
      | Some names =>
          match filter (fun name => negb (dict_mem name d)) names with
          | [] => Valid
          | name :: _ =>
              ValidationError (repr_str name +:+ " is a required property")
                              (join "." path)
          end
      | None => InvalidSchema
      end
  | JList _, _ => Valid
  | _, _ => InvalidSchema
  end.

Definition check_additional (arg : json) (properties : option json)
    (path : list string) (instance : json) : Validation :=
  match arg, instance with
  | JBool false, JObj d =>
      let known := match properties with Some (JObj props) => props | _ => [] end in
      match filter (fun name => negb (dict_mem name known)) (map fst d) with
      | [] => Valid
      | extras =>
          ValidationError
            ("Additional properties are not allowed ("
               +:+ join ", " (map repr_str extras)
               +:+ (if (length extras =? 1)%nat then " was" else " were")
               +:+ " unexpected)")
            (join "." path)
      end
  | _, _ => Valid
  end.

(** The errors of [Draft4Validator(schema).iter_errors(instance)], the
    first one: the keywords of the schema in their order. *)
Fixpoint check (schema : json) (path : list string) (instance : json)
    {struct schema} : Validation :=
  match schema with
  | JObj keywords =>
      (fix each (kws : dict) : Validation :=
         match kws with
         | [] => Valid
         | (keyword, arg) :: kws' =>
             let r :=
               if String.eqb keyword "type" then
                 check_type arg path instance
               else if String.eqb keyword "required" then
                 check_required arg path instance
               else if String.eqb keyword "additionalProperties" then
                 check_additional arg (dict_get "properties" keywords) path instance
               else if String.eqb keyword "properties" then
                 match arg, instance with
                 | JObj props, JObj d =>
                     (fix each_property (ps : dict) : Validation :=
                        match ps with
                        | [] => Valid
                        | (p, subschema) :: ps' =>
                            match
                              match dict_get p d with
                              | Some x => check subschema (path ++ [p]) x
                              | None => Valid
                              end
                            with
                            | Valid => each_property ps'
                            | r => r
                            end
                        end) props
                 | _, _ => Valid
                 end
               else Valid in
             match r with
             | Valid => each kws'
             | _ => r
             end
         end) keywords
  | _ => InvalidSchema
  end.

(** A clock that advances by a microsecond at each reading. *)
Definition ref_utcnow_isoformat (n : nat) : string :=
  let us := pretty n in
  "2025-01-01T00:00:00."
    +:+ String.substring 0 (6 - String.length us) "000000" +:+ us
    +:+ "+00:00".

Global Instance libs : Libs := {|
  parse_message := ref_parse_message;
  validate := fun schema record => check schema [] (JObj record);
  json_dumps := fun record => dumps (JObj record);
  json_loads := loads;
  py_repr := repr;
  utcnow_isoformat := ref_utcnow_isoformat
|}.

(** A bucket from a list of keys and JSON texts, revisions counting
    from 1. *)
Definition bucket_of (l : list (string * string)) : KV.Bucket :=
  foldl (fun b kv => KV.put (fst kv) (jq (snd kv)) b)
        {| KV.entries := ∅; KV.seq := 0 |} l.

(** A run of [persist_messages] on input lines written with [jq]. *)
Definition run (key_prefix : string) (b : KV.Bucket) (input : list string)
    : World * Flow json :=
  persist_messages key_prefix (map jq input) (initial b).

End Ref.

(** ** Vocabulary of the properties *)

(** [w] with the records [l] appended to its log. *)
Definition add_logs (l : list LogRecord) (w : World) : World :=
  {| state := state w; schemas := schemas w; key_properties := key_properties w;
     bookmarks := bookmarks w; validators := validators w;
     bucket := bucket w; requests := requests w; log := log w ++ l;
     clock_reads := clock_reads w |}.

(** The warnings of the scan of a primary key: one for each occurrence of
    an invalid character. *)
Definition invalid_character_warnings (stream primary_key_value : string)
    : list LogRecord :=
  map (WarnInvalidCharacter stream)
      (filter (fun c => invalid_character c = true)
              (String.list_ascii_of_string primary_key_value)).

(** The value a request writes. *)
Definition op_value (o : Op) : option string :=
  match o with
  | Get _ => None
  | Create _ v | Update _ v _ | Put _ v => Some v
  end.

(** The extraction-timestamp field, when it is added. *)
Definition extracted_field (time_extracted : option string) (record : dict)
    : dict :=
  match time_extracted with
  | Some t =>
      if dict_mem "_sdc_extracted_at" record then []
      else [("_sdc_extracted_at", JStr t)]
  | None => []
  end.

(** The receipt-timestamp field, when it is added. *)
Definition received_field (now : string) (record : dict) : dict :=
  if dict_mem "_sdc_received_at" record then []
  else [("_sdc_received_at", JStr now)].

(** The record with its provenance fields. *)
Definition enriched (time_extracted : option string) (now : string)
    (record : dict) : dict :=
  record ++ extracted_field time_extracted record ++ received_field now record.

(** The freshness of a record: [str()] of its bookmark field, the empty
    string when it has none. *)
Definition freshness `{Libs} (bookmark_attr : string) (record : dict) : string :=
  match dict_get bookmark_attr record with
  | Some v => py_str v
  | None => EmptyString
  end.

(** The local variables of [persist_messages] are the same. *)
Definition same_locals (w w' : World) : Prop :=
  state w' = state w ∧ schemas w' = schemas w ∧
  key_properties w' = key_properties w ∧ bookmarks w' = bookmarks w ∧
  validators w' = validators w.

(** Only the log and the clock differ. *)
Definition quiet (w w' : World) : Prop :=
  same_locals w w' ∧ bucket w' = bucket w ∧ requests w' = requests w.

(** The world in which the conflict resolver runs for a record that passed
    the checks: the warnings of the scan are logged, and the clock is read
    when the receipt timestamp is added. *)
Definition checked (stream primary_key_value : string) (record : dict)
    (w : World) : World :=
  let w1 := add_logs (invalid_character_warnings stream primary_key_value) w in
  if dict_mem "_sdc_received_at" record then w1 else tick w1.

(** A record that reaches the conflict resolver: its stream has a schema
    and exactly one key property, the record has that property, its
    [str()] is the primary key, which is not empty and does not start with
    [$], and the record as received passes the validator of the stream. *)
Definition keyed_and_valid `{Libs} (w : World) (stream : string)
    (record : dict) (primary_key_value : string) : Prop :=
  ∃ schema key_property v validator,
    schemas w !! stream = Some schema ∧
    key_properties w !! stream = Some [key_property] ∧
    dict_get key_property record = Some v ∧
    primary_key_value = py_str v ∧
    primary_key_value ≠ EmptyString ∧
    String.get 0 primary_key_value ≠ Some "$"%char ∧
    validators w !! stream = Some validator ∧
    validate validator record = Valid.

(** A record that reaches the validator [validator] of its stream: as
    above, without the verdict of the validator. *)
Definition keyed `{Libs} (w : World) (stream : string) (record : dict)
    (primary_key_value : string) (validator : json) : Prop :=
  ∃ schema key_property v,
    schemas w !! stream = Some schema ∧
    key_properties w !! stream = Some [key_property] ∧
    dict_get key_property record = Some v ∧
    primary_key_value = py_str v ∧
    primary_key_value ≠ EmptyString ∧
    String.get 0 primary_key_value ≠ Some "$"%char ∧
    validators w !! stream = Some validator.

(** The message is a schema message for the stream. *)
Definition is_schema_for (stream : string) (o : Message) : Prop :=
  match o with
  | SchemaMessage stream' _ _ _ => stream' = stream
  | _ => False
  end.

(** ** Concrete inputs

    Input lines and buckets on which the program is run below, written
    with an apostrophe for each double quote (see [Ref.jq]). *)

Module Scenario.

(** A stream [s] keyed by [id], without bookmark. *)
Definition schema_plain : string :=
  "{'type': 'SCHEMA', 'stream': 's', 'schema': {}, 'key_properties': ['id']}".

(** The stream [s] keyed by [id], with the bookmark [updated_at]. *)
Definition schema_bookmark : string :=
  "{'type': 'SCHEMA', 'stream': 's', 'schema': {}, 'key_properties': ['id'], 'bookmark_properties': ['updated_at']}".

(** The stream [s] with the receipt timestamp as its bookmark. *)
Definition schema_bookmark_received : string :=
  "{'type': 'SCHEMA', 'stream': 's', 'schema': {}, 'key_properties': ['id'], 'bookmark_properties': ['_sdc_received_at']}".

(** The stream [s] with a schema that allows the field [id] only. *)
Definition schema_closed : string :=
  "{'type': 'SCHEMA', 'stream': 's', 'schema': {'type': 'object', 'properties': {'id': {'type': 'string'}}, 'additionalProperties': false}, 'key_properties': ['id']}".

Definition closed_schema : json :=
  JObj [("type", JStr "object");
        ("properties", JObj [("id", JObj [("type", JStr "string")])]);
        ("additionalProperties", JBool false)].

Definition record_2021 : string :=
  "{'type': 'RECORD', 'stream': 's', 'record': {'id': '1', 'updated_at': '2021-01-01'}}".

Definition record_id_only : string :=
  "{'type': 'RECORD', 'stream': 's', 'record': {'id': '1'}}".

Definition record_without_key : string :=
  "{'type': 'RECORD', 'stream': 's', 'record': {'name': 'n'}}".

Definition record_dotted_key : string :=
  "{'type': 'RECORD', 'stream': 's', 'record': {'id': 'a.b'}}".

Definition state_x : string := "{'type': 'STATE', 'value': {'x': 1}}".

Definition activate_version : string :=
  "{'type': 'ACTIVATE_VERSION', 'stream': 's', 'version': 3}".

Definition not_json : string := "{'type': 'RECORD', 'stream': ".

(** The decoded records of the lines above. *)
Definition rec_2021 : dict :=
  [("id", JStr "1"); ("updated_at", JStr "2021-01-01")].
Definition rec_id_only : dict := [("id", JStr "1")].

(** Buckets with one entry for the key [s.1], at revision 1. *)
Definition stored_2019 : string :=
  "{'id': '1', 'updated_at': '2019-01-01'}".
Definition stored_tombstone : string :=
  "{'id': '1', 'updated_at': '2019-01-01', '_sdc_deleted_at': '2020-06-01'}".
Definition stored_note : string :=
  "{'id': '1', 'updated_at': '2019-01-01', 'note': 'kept: no _sdc_deleted_at set'}".
Definition stored_id_only : string := "{'id': '1'}".

(** The records these texts decode to. *)
Definition dec_tombstone : dict :=
  [("id", JStr "1"); ("updated_at", JStr "2019-01-01");
   ("_sdc_deleted_at", JStr "2020-06-01")].
Definition dec_note : dict :=
  [("id", JStr "1"); ("updated_at", JStr "2019-01-01");
   ("note", JStr "kept: no _sdc_deleted_at set")].

Definition empty_bucket : KV.Bucket := Ref.bucket_of [].
Definition bucket_with (text : string) : KV.Bucket :=
  Ref.bucket_of [("s.1", text)].

(** The world after the one schema message [line], over the bucket [b]. *)
Definition after_schema (line : string) (b : KV.Bucket) : World :=
  fst (Ref.run EmptyString b [line]).

End Scenario.

(** ** Reading the input and writing the checkpoint *)

Definition newline : ascii := "010"%char.
Definition carriage_return : ascii := "013"%char.

(** The text [io.TextIOWrapper(sys.stdin.buffer, encoding="utf-8")] gives
    for well-formed input: with the default [newline=None] the line ends
    [\r\n] and [\r] are translated to [\n]. *)
Fixpoint universal_newlines (s : string) : string :=
  match s with
  | EmptyString => EmptyString
  | String c s' =>
      if Ascii.eqb c carriage_return then
        match s' with
        | String c' s'' =>
            if Ascii.eqb c' newline
            then String newline (universal_newlines s'')
            else String newline (universal_newlines s')
        | EmptyString => String newline EmptyString
        end
      else String c (universal_newlines s')
  end.

(** The lines an iteration over a text file yields: each line goes up to
    and with its [\n]; the text after the last [\n], if any, is the last
    line. *)
Fixpoint text_lines (s : string) : list string :=
  match s with
  | EmptyString => []
  | String c s' =>
      if Ascii.eqb c newline then String c EmptyString :: text_lines s'
      else
        match text_lines s' with
        | [] => [String c EmptyString]
        | l :: ls => String c l :: ls
        end
  end.

(** Lines 41-49: [next_singer_message()], on the bytes of standard input
    when they are well-formed UTF-8 (on other input the decoder raises, at
    a point that depends on how the bytes arrive). *)
Definition next_singer_message (stdin : string) : list string :=
  text_lines (universal_newlines stdin).

(** The texts of a list one after the other. *)
Definition concat_lines (ls : list string) : string :=
  foldr String.append EmptyString ls.

(** A line of a text file: not empty, and without [\n] before its last
    character. *)
Fixpoint is_line (l : string) : bool :=
  match l with
  | EmptyString => false
  | String c EmptyString => true
  | String c l' => negb (Ascii.eqb c newline) && is_line l'
  end.

(** The last character of the text is [\n]. *)
Fixpoint ends_with_newline (l : string) : bool :=
  match l with
  | EmptyString => false
  | String c EmptyString => Ascii.eqb c newline
  | String _ l' => ends_with_newline l'
  end.

(** Lines 31-38: [emit_state(state)], as the writes to standard output;
    [dumps] is [json.dumps] on any value. *)
Definition emit_state (dumps : json → string) (state : json) : list string :=
  match state with
  | JNull => []
  | _ => [dumps state +:+ String newline EmptyString]
  end.

(** Lines 307-308: [state = asyncio.run(run(config))] followed by
    [emit_state(state)], for a [run] that has opened the bucket [b] and
    read [key_prefix] from the configuration: the writes to standard
    output.  An exception of the run leaves [main] before [emit_state]. *)
Definition main `{Libs} (dumps : json → string) (key_prefix : string)
    (b : KV.Bucket) (stdin : string) : list string :=
  match persist_messages key_prefix (next_singer_message stdin) (initial b) with
  | (_, Next state) => emit_state dumps state
  | (_, _) => []
  end.

(** ** Vocabulary of the further properties *)

(** The four registries know the same streams. *)
Definition in_sync (w : World) : Prop :=
  ∀ stream,
    (is_Some (schemas w !! stream) ↔ is_Some (key_properties w !! stream)) ∧
    (is_Some (schemas w !! stream) ↔ is_Some (bookmarks w !! stream)) ∧
    (is_Some (schemas w !! stream) ↔ is_Some (validators w !! stream)).

(** The four registries are the same. *)
Definition same_registries (w w' : World) : Prop :=
  schemas w' = schemas w ∧ key_properties w' = key_properties w ∧
  bookmarks w' = bookmarks w ∧ validators w' = validators w.

(** The second world has the requests of the first and more, the keys of
    its bucket and more, a sequence number that is not less, and the
    streams of its registry and more. *)
Definition extends (w w' : World) : Prop :=
  requests w `prefix_of` requests w' ∧
  dom (KV.entries (bucket w)) ⊆ dom (KV.entries (bucket w')) ∧
  (KV.seq (bucket w) ≤ KV.seq (bucket w'))%Z ∧
  dom (schemas w) ⊆ dom (schemas w').

(** The serialisation of the record is a text the program reads back as
    that record: not empty, well-formed UTF-8, decoded by [json.loads] to
    the record. *)
Definition reads_back `{Libs} (record : dict) : Prop :=
  json_dumps record ≠ EmptyString ∧
  utf8_valid (json_dumps record) = true ∧
  json_loads (json_dumps record) = Some (JObj record).

(** Further concrete inputs. *)
Module Cases.

Definition schema_two_keys : string :=
  "{'type': 'SCHEMA', 'stream': 's', 'schema': {}, 'key_properties': ['id', 'org']}".

Definition schema_typed : string :=
  "{'type': 'SCHEMA', 'stream': 's', 'schema': {'properties': {'amount': {'type': 'number'}}}, 'key_properties': ['id']}".

Definition typed_schema : json :=
  JObj [("properties", JObj [("amount", JObj [("type", JStr "number")])])].

Definition rec_amount_text : dict :=
  [("id", JStr "1"); ("amount", JStr "ten")].

(** The stream [s] with a schema that wants the receipt timestamp. *)
Definition schema_wants_receipt : string :=
  "{'type': 'SCHEMA', 'stream': 's', 'schema': {'type': 'object', 'required': ['_sdc_received_at']}, 'key_properties': ['id']}".

Definition receipt_schema : json :=
  JObj [("type", JStr "object");
        ("required", JList [JStr "_sdc_received_at"])].

Definition rec_no_id : dict := [("name", JStr "n")].
Definition rec_empty_id : dict := [("id", JStr EmptyString)].
Definition rec_dollar_id : dict := [("id", JStr "$sys")].

Definition rec_2019 : dict :=
  [("id", JStr "1"); ("updated_at", JStr "2019-01-01")].
Definition rec_2020 : dict :=
  [("id", JStr "1"); ("updated_at", JStr "2020-01-01")].

(** Two lines, the first ended by [\r\n], the second not ended. *)
Definition two_lines : string :=
  Scenario.state_x +:+ String carriage_return (String newline EmptyString)
    +:+ Scenario.activate_version.

End Cases.

(** ** Evaluation of the monadic code *)

Ltac run :=
  repeat
    first
      [ progress (unfold mbind, M_bind, mret, M_ret, world, modify, logger,
          continue, raise, try_except, kv_get, kv_create, kv_update, kv_put,
          now_isoformat, KV.get, KV.create, KV.update, KV.put in *)
      | progress (cbn [lift state schemas key_properties bookmarks validators
          bucket requests log clock_reads set_state set_bucket add_request
          add_log tick add_logs register fst snd] in *) ].

(** ** Dictionaries and strings *)

Lemma dict_mem_false k d : dict_mem k d = false ↔ dict_get k d = None.
Proof.
  induction d as [|[k' v] d IH]; simpl; [done|].
  destruct (String.eqb k k'); [split; discriminate | done].
Qed.

Lemma dict_mem_true k d : dict_mem k d = true ↔ is_Some (dict_get k d).
Proof.
  induction d as [|[k' v] d IH]; simpl.
  - split; [discriminate | intros [? ?]; discriminate].
  - destruct (String.eqb k k'); [split; eauto | done].
Qed.

Lemma dict_set_fresh k v d :
  dict_mem k d = false → dict_set k v d = d ++ [(k, v)].
Proof.
  induction d as [|[k' v'] d IH]; simpl; [done|].
  destruct (String.eqb k k'); [done|]. intros Hm. by rewrite IH.
Qed.

Lemma dict_get_app k d1 d2 :
  dict_get k (d1 ++ d2) =
  match dict_get k d1 with
  | Some v => Some v
  | None => dict_get k d2
  end.
Proof.
  induction d1 as [|[k' v'] d1 IH]; simpl; [done|].
  by destruct (String.eqb k k').
Qed.

Lemma dict_mem_app k d1 d2 :
  dict_mem k (d1 ++ d2) = dict_mem k d1 || dict_mem k d2.
Proof.
  induction d1 as [|[k' v'] d1 IH]; simpl; [done|].
  by destruct (String.eqb k k').
Qed.

(** The empty string is greater than no string. *)
Lemma str_gt_empty s : str_gt EmptyString s = false.
Proof. unfold str_gt. by destruct s. Qed.

(** ** Worlds *)

Lemma add_logs_nil w : add_logs [] w = w.
Proof. destruct w. unfold add_logs. simpl. by rewrite app_nil_r. Qed.

Lemma add_logs_cons r l w : add_logs l (add_log r w) = add_logs (r :: l) w.
Proof. unfold add_logs, add_log. simpl. by rewrite <- app_assoc. Qed.

Lemma same_locals_refl w : same_locals w w.
Proof. by repeat split. Qed.

Lemma same_locals_trans w1 w2 w3 :
  same_locals w1 w2 → same_locals w2 w3 → same_locals w1 w3.
Proof.
  unfold same_locals. intros (?&?&?&?&?) (?&?&?&?&?).
  repeat split; congruence.
Qed.

Lemma quiet_refl w : quiet w w.
Proof. by repeat split. Qed.

Lemma quiet_trans w1 w2 w3 : quiet w1 w2 → quiet w2 w3 → quiet w1 w3.
Proof.
  intros (Hl1 & ? & ?) (Hl2 & ? & ?).
  split; [by eapply same_locals_trans|]. split; congruence.
Qed.

Lemma quiet_add_logs l w : quiet w (add_logs l w).
Proof. by repeat split. Qed.

Lemma quiet_add_log r w : quiet w (add_log r w).
Proof. by repeat split. Qed.

Lemma quiet_tick w : quiet w (tick w).
Proof. by repeat split. Qed.

Lemma quiet_checked stream pk record w : quiet w (checked stream pk record w).
Proof. unfold checked. by destruct (dict_mem _ record). Qed.

(** ** The stages of the record branch *)

Section Stages.

Context `{Libs}.
Variable key_prefix : string.

(** The scan of the primary key only logs: every [continue] in it resumes
    the scan, and the statement after the loop is reached. *)
Lemma scan_primary_key_spec stream pk w :
  scan_primary_key stream pk w =
  (add_logs (invalid_character_warnings stream pk) w, Next tt).
Proof.
  unfold scan_primary_key, invalid_character_warnings.
  generalize (String.list_ascii_of_string pk) as cs. intros cs. revert w.
  induction cs as [|c cs IH]; intros w; simpl.
  - by rewrite add_logs_nil.
  - rewrite filter_cons. destruct (invalid_character c) eqn:Hc; run.
    + rewrite IH. by rewrite add_logs_cons.
    + by rewrite IH.
Qed.

Lemma key_checks_pass stream record w kp v :
  key_properties w !! stream = Some [kp] →
  dict_get kp record = Some v →
  py_str v ≠ EmptyString →
  String.get 0 (py_str v) ≠ Some "$"%char →
  key_checks stream record w =
  (add_logs (invalid_character_warnings stream (py_str v)) w, Next (py_str v)).
Proof.
  intros Hkp Hv Hne Hd. unfold key_checks. run. rewrite Hkp.
  assert (dict_mem kp record = true) as -> by (apply dict_mem_true; eauto).
  cbn [negb]. unfold py_getitem. rewrite Hv. run.
  destruct (py_str v) as [|c s] eqn:Hs; [done|]. cbn [String.length Nat.eqb].
  rewrite bool_decide_eq_false_2 by done.
  rewrite <- Hs. by rewrite scan_primary_key_spec.
Qed.

Lemma key_checks_spec stream record w :
  quiet w (fst (key_checks stream record w)) ∧
  match snd (key_checks stream record w) with
  | Next pk =>
      ∃ kp v, key_properties w !! stream = Some [kp] ∧
              dict_get kp record = Some v ∧ pk = py_str v ∧
              pk ≠ EmptyString ∧ String.get 0 pk ≠ Some "$"%char
  | Continue => requests (fst (key_checks stream record w)) = requests w
  | Raise _ => False
  end.
Proof.
  unfold key_checks. run.
  destruct (key_properties w !! stream) as [[|kp [|]]|] eqn:Hkp; run;
    try (split; [apply quiet_add_log | done]).
  destruct (dict_mem kp record) eqn:Hm; cbn [negb]; run;
    [|split; [apply quiet_add_log | done]].
  apply dict_mem_true in Hm as [v Hv].
  unfold py_getitem. rewrite Hv. run.
  destruct (py_str v) as [|c s] eqn:Hs; cbn [String.length Nat.eqb]; run;
    [split; [apply quiet_add_log | done]|].
  case_bool_decide as Hd; run; [split; [apply quiet_add_log | done]|].
  rewrite <- Hs. rewrite scan_primary_key_spec. run.
  split; [apply quiet_add_logs|].
  exists kp, v. rewrite Hs. by repeat split.
Qed.

Lemma schema_check_spec stream pk record w :
  quiet w (fst (schema_check stream pk record w)) ∧
  match snd (schema_check stream pk record w) with
  | Next _ =>
      schema_check stream pk record w = (w, Next tt) ∧
      ∃ schema, validators w !! stream = Some schema ∧
                validate schema record = Valid
  | _ => True
  end.
Proof.
  unfold schema_check. run.
  destruct (validators w !! stream) as [schema|]; run;
    [|split; [apply quiet_refl | done]].
  destruct (validate schema record) eqn:Hv; run.
  - split; [apply quiet_refl|]. eauto.
  - split; [apply quiet_add_log | done].
  - split; [apply quiet_refl | done].
Qed.

(** The two assignments of lines 152-158 append the provenance fields the
    record lacks, the clock being read for the receipt timestamp only. *)
Lemma enrich_spec time_extracted record w :
  add_received_at (add_extracted_at time_extracted record) w =
  ((if dict_mem "_sdc_received_at" record then w else tick w),
   Next (enriched time_extracted (utcnow_isoformat (clock_reads w)) record)).
Proof.
  assert (dict_mem "_sdc_received_at" (add_extracted_at time_extracted record)
          = dict_mem "_sdc_received_at" record) as Hm.
  { unfold add_extracted_at. destruct time_extracted as [t|]; [|done].
    destruct (dict_mem "_sdc_extracted_at" record) eqn:He; simpl; [done|].
    rewrite dict_set_fresh by done. rewrite dict_mem_app. simpl.
    by rewrite orb_false_r. }
  assert (add_extracted_at time_extracted record =
          record ++ extracted_field time_extracted record) as He.
  { unfold add_extracted_at, extracted_field.
    destruct time_extracted as [t|]; [|by rewrite app_nil_r].
    destruct (dict_mem "_sdc_extracted_at" record) eqn:He; simpl;
      [by rewrite app_nil_r|]. by apply dict_set_fresh. }
  unfold add_received_at, enriched, received_field. rewrite Hm.
  destruct (dict_mem "_sdc_received_at" record) eqn:Hr; cbn [negb]; run.
  - by rewrite He, app_nil_r.
  - rewrite dict_set_fresh by (by rewrite Hm). by rewrite He, <- app_assoc.
Qed.

Lemma bookmark_source_spec attr record w :
  ∃ src, py_str src = freshness attr record ∧
         bookmark_source_of attr record w = (w, Next src).
Proof.
  unfold freshness, bookmark_source_of. destruct (dict_mem attr record) eqn:Hm.
  - apply dict_mem_true in Hm as [v Hv]. exists v. simpl. by rewrite Hv.
  - apply dict_mem_false in Hm. exists (JStr EmptyString). by rewrite Hm.
Qed.

(** *** The paths of the conflict resolver *)

Lemma resolve_put stream pk key record w :
  bookmark_attr_of stream w = None →
  resolve stream pk key record w =
  (set_bucket (KV.put key (json_dumps record) (bucket w))
              (add_request (Put key (json_dumps record)) w), Next tt).
Proof. intros Hb. unfold resolve. run. by rewrite Hb. Qed.

Lemma resolve_create stream pk key record w attr :
  bookmark_attr_of stream w = Some attr →
  KV.entries (bucket w) !! key = None →
  resolve stream pk key record w =
  (set_bucket (KV.write key (json_dumps record) (bucket w))
     (add_request (Create key (json_dumps record)) (add_request (Get key) w)),
   Next tt).
Proof.
  intros Hb Hk. unfold resolve. run. rewrite Hb. run.
  destruct (bookmark_source_spec attr record w) as (src & _ & ->).
  unfold compare_and_update. run. rewrite Hk. run.
  rewrite decide_True by done. run. by rewrite Hk.
Qed.

Lemma resolve_empty stream pk key record w attr e :
  bookmark_attr_of stream w = Some attr →
  KV.entries (bucket w) !! key = Some e →
  KV.value e = None ∨ KV.value e = Some EmptyString →
  resolve stream pk key record w =
  (add_log (WarnEmptyExistingValue stream pk) (add_request (Get key) w),
   Continue).
Proof.
  intros Hb Hk He. unfold resolve. run. rewrite Hb. run.
  destruct (bookmark_source_spec attr record w) as (src & _ & ->).
  unfold compare_and_update. run. rewrite Hk. run.
  by destruct He as [-> | ->].
Qed.

Lemma resolve_deleted stream pk key record w attr e bytes current_record :
  bookmark_attr_of stream w = Some attr →
  KV.entries (bucket w) !! key = Some e →
  KV.value e = Some bytes → bytes ≠ EmptyString →
  utf8_valid bytes = true →
  json_loads bytes = Some current_record →
  contains "_sdc_deleted_at" bytes = true →
  resolve stream pk key record w =
  (add_log (WarnTargetDeleted stream pk) (add_request (Get key) w), Continue).
Proof.
  intros Hb Hk He Hne Hu Hl Hc. unfold resolve. run. rewrite Hb. run.
  destruct (bookmark_source_spec attr record w) as (src & _ & ->).
  unfold compare_and_update. run. rewrite Hk. run. rewrite He.
  destruct bytes as [|c bytes']; [done|].
  unfold decode_utf8. rewrite Hu. run. rewrite Hl. run. by rewrite Hc.
Qed.

Lemma resolve_compare stream pk key record w attr e bytes d :
  bookmark_attr_of stream w = Some attr →
  KV.entries (bucket w) !! key = Some e →
  KV.value e = Some bytes → bytes ≠ EmptyString →
  utf8_valid bytes = true →
  json_loads bytes = Some (JObj d) →
  contains "_sdc_deleted_at" bytes = false →
  resolve stream pk key record w =
  if str_gt (freshness attr record) (freshness attr d) then
    (set_bucket (KV.write key (json_dumps record) (bucket w))
       (add_request (Update key (json_dumps record) (KV.revision e))
          (add_request (Get key) w)), Continue)
  else
    (add_log (DebugNotNewer stream pk) (add_request (Get key) w), Continue).
Proof.
  intros Hb Hk He Hne Hu Hl Hc. unfold resolve. run. rewrite Hb. run.
  destruct (bookmark_source_spec attr record w) as (src & <- & ->).
  unfold compare_and_update. run. rewrite Hk. run. rewrite He.
  destruct bytes as [|c bytes']; [done|].
  unfold decode_utf8. rewrite Hu. run. rewrite Hl. run. rewrite Hc.
  unfold freshness, py_in, py_getitem. run.
  destruct (dict_mem attr d) eqn:Hm.
  - apply dict_mem_true in Hm as [v Hv]. rewrite Hv. run.
    destruct (str_gt (py_str src) (py_str v)); [|done].
    run. rewrite Hk, Z.eqb_refl. by run.
  - apply dict_mem_false in Hm. rewrite Hm. run. cbn [py_str].
    destruct (str_gt (py_str src) EmptyString); [|done].
    run. rewrite Hk, Z.eqb_refl. by run.
Qed.

(** Whatever the bucket holds, the resolver leaves the local variables
    alone and sends one of four sequences of requests, all for [key];
    it runs on to the statement after it exactly after a put or a
    create. *)
Lemma resolve_shape stream pk key record w :
  let r := resolve stream pk key record w in
  let value := json_dumps record in
  same_locals w (fst r) ∧
  ((requests (fst r) = requests w ++ [Put key value] ∧ snd r = Next tt)
   ∨ (requests (fst r) = requests w ++ [Get key; Create key value]
      ∧ snd r = Next tt)
   ∨ (requests (fst r) = requests w ++ [Get key] ∧ snd r ≠ Next tt)
   ∨ (∃ rev, requests (fst r) = requests w ++ [Get key; Update key value rev]
      ∧ snd r = Continue)).
Proof.
  intros r value. subst r value.
  destruct (bookmark_attr_of stream w) as [attr|] eqn:Hb.
  2: { rewrite resolve_put by done. run. split; [by repeat split|].
       by left. }
  destruct (KV.entries (bucket w) !! key) as [e|] eqn:Hk.
  2: { erewrite resolve_create by done. run.
       split; [by repeat split|]. right; left.
       by rewrite <- app_assoc. }
  unfold resolve. run. rewrite Hb. run.
  destruct (bookmark_source_spec attr record w) as (src & _ & ->).
  unfold compare_and_update. run. rewrite Hk. run.
  unfold decode_utf8, py_in, py_getitem.
  repeat (case_match; run; simplify_eq; run).
  all: repeat match goal with
       | Hx : KV.entries _ !! _ = _, Hy : KV.entries _ !! _ = _ |- _ =>
           rewrite Hy in Hx; simplify_eq
       | Hx : (?z =? ?z)%Z = false |- _ => rewrite Z.eqb_refl in Hx; simplify_eq
       end.
  all: split; [by repeat split|].
  all: try (right; right; left; split; [done | discriminate]).
  all: right; right; right; eexists; split; [by rewrite <- app_assoc | done].
Qed.

(** *** The record branch *)

Lemma on_record_pass stream record te w pk :
  keyed_and_valid w stream record pk →
  on_record key_prefix stream record te w =
  resolve stream pk (store_key key_prefix stream pk)
          (enriched te (utcnow_isoformat (clock_reads w)) record)
          (checked stream pk record w).
Proof.
  intros (s0 & kp & v & schema & Hs & Hkp & Hv & -> & Hne & Hd & Hval & Hok).
  unfold on_record. run. rewrite Hs.
  rewrite (key_checks_pass _ _ _ _ _ Hkp Hv Hne Hd).
  unfold schema_check. run. rewrite Hval, Hok. run.
  rewrite enrich_spec. unfold checked. run.
  by destruct (resolve _ _ _ _ _) as [w' [| |]].
Qed.

(** A record message is either turned away before any request is sent, or
    it is keyed and valid and the resolver runs for it. *)
Lemma on_record_cases stream record te w :
  (quiet w (fst (on_record key_prefix stream record te w)) ∧
   snd (on_record key_prefix stream record te w) ≠ Next tt)
  ∨ ∃ pk, keyed_and_valid w stream record pk.
Proof.
  destruct (schemas w !! stream) as [s0|] eqn:Hs.
  2: { left. unfold on_record. run. rewrite Hs. run.
       split; [apply quiet_refl | done]. }
  destruct (key_checks_spec stream record w) as [Hq1 Hk].
  destruct (key_checks stream record w) as [w1 f1] eqn:Hkc.
  cbn [fst snd] in Hq1, Hk.
  destruct f1 as [pk| |e];
    [|left; unfold on_record; run; rewrite Hs, Hkc; by split..].
  destruct Hk as (kp & v & Hkp & Hv & -> & Hne & Hd).
  destruct (schema_check_spec stream (py_str v) record w1) as [Hq2 Hsc].
  destruct (schema_check stream (py_str v) record w1) as [w2 f2] eqn:Hsc'.
  cbn [fst snd] in Hq2, Hsc.
  pose proof (quiet_trans _ _ _ Hq1 Hq2) as Hq.
  destruct f2 as [[]| |e];
    [|left; unfold on_record; run; rewrite Hs, Hkc; run; rewrite Hsc';
      by split..].
  destruct Hsc as (Heq & schema & Hval & Hok).
  assert (validators w1 = validators w) as Hv1 by apply Hq1.
  rewrite Hv1 in Hval.
  right. exists (py_str v), s0, kp, v, schema. by repeat split.
Qed.

(** The requests of a record message. *)
Lemma on_record_shape stream record te w :
  let r := on_record key_prefix stream record te w in
  same_locals w (fst r) ∧
  ((requests (fst r) = requests w ∧ snd r ≠ Next tt) ∨
   ∃ pk, keyed_and_valid w stream record pk ∧
     let key := store_key key_prefix stream pk in
     let value :=
       json_dumps (enriched te (utcnow_isoformat (clock_reads w)) record) in
     ((requests (fst r) = requests w ++ [Put key value] ∧ snd r = Next tt)
      ∨ (requests (fst r) = requests w ++ [Get key; Create key value]
         ∧ snd r = Next tt)
      ∨ (requests (fst r) = requests w ++ [Get key] ∧ snd r ≠ Next tt)
      ∨ (∃ rev, requests (fst r) = requests w ++ [Get key; Update key value rev]
         ∧ snd r = Continue))).
Proof.
  intros r. subst r.
  destruct (on_record_cases stream record te w) as [[Hq Hf]|[pk Hkv]].
  { split; [apply Hq|]. left. split; [apply Hq | done]. }
  rewrite (on_record_pass _ _ _ _ _ Hkv).
  pose proof (quiet_checked stream pk record w) as (Hl & _ & Hrq).
  pose proof (resolve_shape stream pk (store_key key_prefix stream pk)
                (enriched te (utcnow_isoformat (clock_reads w)) record)
                (checked stream pk record w)) as Hr.
  cbn zeta in Hr. destruct Hr as [Hst Hr]. rewrite Hrq in Hr.
  split; [by eapply same_locals_trans|]. right. by exists pk.
Qed.

End Stages.

(** ** The record branch with the assignment that follows it *)

Section Claims.

Context `{Libs}.
Variable key_prefix : string.

Lemma on_message_record stream record te w :
  on_message key_prefix (RecordMessage stream record te) w =
  match on_record key_prefix stream record te w with
  | (w', Next _) => (set_state JNull w', Next tt)
  | (w', Continue) => (w', Continue)
  | (w', Raise e) => (w', Raise e)
  end.
Proof. unfold on_message. run. by destruct (on_record _ _ _ _ _) as [w' [| |]]. Qed.

(** What a record message does to the requests and to the checkpoint. *)
Lemma on_message_record_shape stream record te w :
  let r := on_message key_prefix (RecordMessage stream record te) w in
  (requests (fst r) = requests w ∧ state (fst r) = state w ∧ snd r ≠ Next tt)
  ∨ ∃ pk, keyed_and_valid w stream record pk ∧
     let key := store_key key_prefix stream pk in
     let value :=
       json_dumps (enriched te (utcnow_isoformat (clock_reads w)) record) in
     ((requests (fst r) = requests w ++ [Put key value]
       ∧ state (fst r) = JNull ∧ snd r = Next tt)
      ∨ (requests (fst r) = requests w ++ [Get key; Create key value]
         ∧ state (fst r) = JNull ∧ snd r = Next tt)
      ∨ (requests (fst r) = requests w ++ [Get key]
         ∧ state (fst r) = state w ∧ snd r ≠ Next tt)
      ∨ (∃ rev, requests (fst r) = requests w ++ [Get key; Update key value rev]
         ∧ state (fst r) = state w ∧ snd r = Continue)).
Proof.
  intros r. subst r. rewrite on_message_record.
  destruct (on_record_shape key_prefix stream record te w) as [Hl Hr].
  destruct (on_record key_prefix stream record te w) as [w' f].
  cbn [fst snd] in Hl, Hr. destruct Hl as [Hst _].
  destruct Hr as [[Hrq Hf]|(pk & Hkv & Hr)].
  { left. destruct f as [[]| |e]; [done|by repeat split..]. }
  right. exists pk. split; [done|]. cbn zeta in Hr |- *.
  destruct Hr as [[Hrq ->]|[[Hrq ->]|[[Hrq Hf]|(rev & Hrq & ->)]]].
  - by left.
  - by right; left.
  - right; right; left. destruct f as [[]| |e]; [done|by repeat split..].
  - right; right; right. by exists rev.
Qed.

Lemma checked_bookmark_attr stream pk record w :
  bookmark_attr_of stream (checked stream pk record w) = bookmark_attr_of stream w.
Proof.
  destruct (quiet_checked stream pk record w) as ((_ & _ & _ & Hb & _) & _).
  unfold bookmark_attr_of. by rewrite Hb.
Qed.

Lemma checked_bucket stream pk record w :
  bucket (checked stream pk record w) = bucket w.
Proof. apply quiet_checked. Qed.

Lemma checked_requests stream pk record w :
  requests (checked stream pk record w) = requests w.
Proof. apply quiet_checked. Qed.

(** The provenance fields of the enriched record. *)
Lemma enriched_fields te now record :
  let E := enriched te now record in
  (∀ k x, dict_get k record = Some x → dict_get k E = Some x) ∧
  (∀ k, k ≠ "_sdc_extracted_at" → k ≠ "_sdc_received_at" →
        dict_get k E = dict_get k record) ∧
  (dict_mem "_sdc_extracted_at" E =
   dict_mem "_sdc_extracted_at" record || bool_decide (is_Some te)) ∧
  dict_mem "_sdc_received_at" E = true.
Proof.
  unfold enriched, extracted_field, received_field. cbn zeta.
  split; [|split; [|split]].
  - intros k x Hk. by rewrite dict_get_app, Hk.
  - intros k He Hr. rewrite !dict_get_app.
    destruct (dict_get k record); [done|].
    assert (String.eqb k "_sdc_extracted_at" = false) as He'
      by by apply String.eqb_neq.
    assert (String.eqb k "_sdc_received_at" = false) as Hr'
      by by apply String.eqb_neq.
    destruct te; destruct (dict_mem "_sdc_extracted_at" record);
      destruct (dict_mem "_sdc_received_at" record); simpl;
      rewrite ?He', ?Hr'; done.
  - rewrite !dict_mem_app.
    destruct te; destruct (dict_mem "_sdc_extracted_at" record);
      destruct (dict_mem "_sdc_received_at" record); done.
  - rewrite !dict_mem_app.
    destruct te; destruct (dict_mem "_sdc_extracted_at" record);
      destruct (dict_mem "_sdc_received_at" record) eqn:Hr; simpl;
      rewrite ?Hr; done.
Qed.

(** A record without the bookmark field gets it from the enrichment only
    when the bookmark is one of the two provenance fields. *)
Lemma enriched_lacks attr te now record :
  dict_mem attr record = false →
  attr ≠ "_sdc_received_at" →
  te = None ∨ attr ≠ "_sdc_extracted_at" →
  dict_mem attr (enriched te now record) = false.
Proof.
  intros Hm Hr He. unfold enriched, extracted_field, received_field.
  rewrite !dict_mem_app, Hm.
  assert (String.eqb attr "_sdc_received_at" = false) as Hr'
    by by apply String.eqb_neq.
  destruct te as [t|].
  - destruct He as [|He]; [done|].
    assert (String.eqb attr "_sdc_extracted_at" = false) as He'
      by by apply String.eqb_neq.
    destruct (dict_mem "_sdc_extracted_at" record);
      destruct (dict_mem "_sdc_received_at" record); simpl;
      rewrite ?He', ?Hr'; done.
  - destruct (dict_mem "_sdc_received_at" record); simpl; rewrite ?Hr'; done.
Qed.

(** ** The loop *)

Lemma for_in_app {A} (xs ys : list A) body w w1 :
  for_in xs body w = (w1, Next tt) →
  for_in (xs ++ ys) body w = for_in ys body w1.
Proof.
  revert w. induction xs as [|x xs IH]; intros w; simpl.
  - by intros [= ->].
  - destruct (body x w) as [w' [[]| |e]]; [apply IH..|done].
Qed.

Lemma persist_messages_cons line rest w :
  persist_messages key_prefix (line :: rest) w =
  match loop_body key_prefix line w with
  | (w', Raise e) => (w', Raise e)
  | (w', _) => persist_messages key_prefix rest w'
  end.
Proof.
  unfold persist_messages. run. simpl.
  by destruct (loop_body key_prefix line w) as [w' [[]| |e]].
Qed.

Lemma persist_messages_app pre rest w w1 :
  for_in pre (loop_body key_prefix) w = (w1, Next tt) →
  persist_messages key_prefix (pre ++ rest) w =
  persist_messages key_prefix rest w1.
Proof.
  intros Hpre. unfold persist_messages. run.
  by rewrite (for_in_app _ _ _ _ _ Hpre).
Qed.

(** A message that is not a schema message for a stream leaves the stream
    without a schema. *)
Lemma on_message_no_schema o stream w :
  schemas w !! stream = None →
  ¬ is_schema_for stream o →
  schemas (fst (on_message key_prefix o w)) !! stream = None.
Proof.
  intros Hs Ho. destruct o as [s r te|v|s sch kp bp|s v|].
  - rewrite on_message_record.
    destruct (on_record_shape key_prefix s r te w) as [(_ & Hsch & _) _].
    destruct (on_record key_prefix s r te w) as [w' [[]| |e]];
      cbn [fst snd] in *; run; by rewrite Hsch.
  - unfold on_message. by run.
  - unfold on_message. run. rewrite lookup_insert_ne; [done|].
    intros ->. by apply Ho.
  - unfold on_message. by run.
  - unfold on_message. by run.
Qed.

Lemma loop_body_no_schema line stream w :
  schemas w !! stream = None →
  (∀ o, parse_message line = Parsed o → ¬ is_schema_for stream o) →
  schemas (fst (loop_body key_prefix line w)) !! stream = None.
Proof.
  intros Hs Hl. unfold loop_body, parse. run.
  destruct (parse_message line) as [o|e] eqn:Hp; run.
  - pose proof (on_message_no_schema o stream w Hs (Hl o eq_refl)) as Ho.
    by destruct (on_message key_prefix o w) as [w' [[]| |e]].
  - by destruct e; run.
Qed.

Lemma for_in_no_schema pre stream w :
  schemas w !! stream = None →
  (∀ line o, line ∈ pre → parse_message line = Parsed o →
             ¬ is_schema_for stream o) →
  schemas (fst (for_in pre (loop_body key_prefix) w)) !! stream = None.
Proof.
  revert w. induction pre as [|line pre IH]; intros w Hs Hpre; simpl; [done|].
  pose proof (loop_body_no_schema line stream w Hs
                (λ o, Hpre line o (list_elem_of_here _ _))) as Hb.
  assert (∀ l o, l ∈ pre → parse_message l = Parsed o →
                 ¬ is_schema_for stream o) as Hpre'
    by (intros l o Hin; apply Hpre; by apply list_elem_of_further).
  destruct (loop_body key_prefix line w) as [w' [[]| |e]]; cbn [fst] in Hb;
    [by apply IH..|done].
Qed.

End Claims.

(** ** Properties of [persist_messages] *)

Section Properties.

Context `{Libs}.
Variable key_prefix : string.

(** C1, as amended.  For a record message that reaches the conflict
    resolver (its stream has a schema and one key property, the primary key
    passes the checks of lines 94-122, the record as received passes the
    validator), the requests sent and the way the branch ends are: with no
    first bookmark property, one put of the serialised enriched record;
    otherwise a get of the key and then, when the key is not found, a
    create; when the entry has no value or an empty one, nothing; when the
    value is well-formed UTF-8 that decodes to a JSON object whose text
    does not mention [_sdc_deleted_at], an update fenced by the revision the
    get returned if the stored freshness is strictly less than the
    candidate's, nothing otherwise; when the decoded object has the field
    [_sdc_deleted_at] and its text shows it, nothing. *)
Theorem C1_conflict_resolver stream record te w pk :
  keyed_and_valid w stream record pk →
  let candidate := enriched te (utcnow_isoformat (clock_reads w)) record in
  let key := store_key key_prefix stream pk in
  let value := json_dumps candidate in
  let r := on_record key_prefix stream record te w in
  match bookmark_attr_of stream w with
  | None => requests (fst r) = requests w ++ [Put key value] ∧ snd r = Next tt
  | Some attr =>
      match KV.entries (bucket w) !! key with
      | None =>
          requests (fst r) = requests w ++ [Get key; Create key value]
          ∧ snd r = Next tt
      | Some e =>
          match KV.value e with
          | None | Some EmptyString =>
              requests (fst r) = requests w ++ [Get key] ∧ snd r = Continue
          | Some bytes =>
              ∀ d, utf8_valid bytes = true → json_loads bytes = Some (JObj d) →
                (contains "_sdc_deleted_at" bytes = false →
                 if str_lt (freshness attr d) (freshness attr candidate)
                 then requests (fst r) =
                      requests w ++ [Get key; Update key value (KV.revision e)]
                      ∧ snd r = Continue
                 else requests (fst r) = requests w ++ [Get key]
                      ∧ snd r = Continue)
                ∧ (dict_mem "_sdc_deleted_at" d = true →
                   contains "_sdc_deleted_at" bytes = true →
                   requests (fst r) = requests w ++ [Get key]
                   ∧ snd r = Continue)
          end
      end
  end.
Proof.
  intros Hkv candidate key value r. subst r.
  rewrite (on_record_pass key_prefix _ _ _ _ _ Hkv). fold candidate key.
  pose proof (checked_bookmark_attr stream pk record w) as Hb.
  pose proof (checked_bucket stream pk record w) as Hbk.
  pose proof (checked_requests stream pk record w) as Hrq.
  destruct (bookmark_attr_of stream w) as [attr|] eqn:Hattr.
  2: { rewrite resolve_put by done. run. by rewrite Hrq. }
  destruct (KV.entries (bucket w) !! key) as [e|] eqn:Hk.
  2: { erewrite resolve_create by (by rewrite ?Hbk). run.
       by rewrite Hrq, <- app_assoc. }
  rewrite <- Hbk in Hk.
  destruct (KV.value e) as [[|c bytes]|] eqn:He.
  - erewrite resolve_empty by eauto. run. by rewrite Hrq.
  - intros d Hu Hl. split.
    + intros Hc. erewrite resolve_compare by eauto.
      unfold str_lt.
      destruct (str_gt (freshness attr candidate) (freshness attr d)); run;
        by rewrite Hrq, <- ?app_assoc.
    + intros _ Hc. erewrite resolve_deleted by eauto. run. by rewrite Hrq.
  - erewrite resolve_empty by eauto. run. by rewrite Hrq.
Qed.

(** C3, as amended.  When a record message arrives for a stream that no
    earlier schema message named, and the messages before it were handled
    without an exception, the run ends at that message with the exception
    "a record for stream ... was encountered before a corresponding
    schema": the world is as the earlier messages left it (nothing is
    logged, no request is sent) and the messages after it are not read. *)
Theorem C3_record_before_schema pre line rest stream record te w w1 :
  schemas w !! stream = None →
  (∀ l o, l ∈ pre → parse_message l = Parsed o → ¬ is_schema_for stream o) →
  parse_message line = Parsed (RecordMessage stream record te) →
  for_in pre (loop_body key_prefix) w = (w1, Next tt) →
  persist_messages key_prefix (pre ++ line :: rest) w =
  (w1, Raise (RecordBeforeSchema stream)).
Proof.
  intros Hs Hpre Hline Hrun.
  pose proof (for_in_no_schema key_prefix pre stream w Hs Hpre) as Hs1.
  rewrite Hrun in Hs1. cbn [fst] in Hs1.
  rewrite (persist_messages_app key_prefix _ _ _ _ Hrun).
  rewrite persist_messages_cons.
  unfold loop_body, parse. rewrite Hline. run.
  rewrite on_message_record. unfold on_record. run. by rewrite Hs1.
Qed.

(** C5, as amended.  After a record message whose last request is a put or
    a create, the held checkpoint is [None]; after a record message for
    which no write request was sent (it was rejected or skipped), the held
    checkpoint is what it was before the message. *)
Theorem C5_checkpoint_after_record stream record te w :
  let r := on_message key_prefix (RecordMessage stream record te) w in
  ∃ ops, requests (fst r) = requests w ++ ops ∧
    ((∃ k v, last ops = Some (Put k v) ∨ last ops = Some (Create k v)) →
     state (fst r) = JNull ∧ snd r = Next tt) ∧
    (Forall (λ o, is_write o = false) ops → state (fst r) = state w).
Proof.
  intros r.
  destruct (on_message_record_shape key_prefix stream record te w)
    as [(Hrq & Hst & Hf)|(pk & Hkv & Hr)]; fold r in Hrq, Hst, Hf || fold r in Hr.
  { exists []. rewrite app_nil_r. split; [done|]. split; [|done].
    by intros (k & v & [[=]|[=]]). }
  cbn zeta in Hr.
  destruct Hr as [(Hrq & Hst & Hf)|[(Hrq & Hst & Hf)|[(Hrq & Hst & Hf)|
                  (rev & Hrq & Hst & Hf)]]];
    eexists; (split; [exact Hrq|]); split; try done.
  - intros Hw. by apply Forall_cons_1 in Hw as [[=] _].
  - intros Hw. apply Forall_cons_1 in Hw as [_ Hw].
    by apply Forall_cons_1 in Hw as [[=] _].
  - by intros (k & v & [[=]|[=]]).
  - by intros (k & v & [[=]|[=]]).
Qed.

(** C6.  A line that [singer.parse_message] raises on ends the run with
    that exception, before any request and with the local variables and the
    bucket untouched; a message that parses to an [ActivateVersionMessage]
    or to none of the four classes adds one warning to the log, changes
    nothing else, and the run goes on with the next line. *)
Theorem C6_parse_failure_and_unsupported line rest w :
  match parse_message line with
  | ParseRaises e =>
      ∃ w', persist_messages key_prefix (line :: rest) w = (w', Raise e)
            ∧ quiet w w'
  | Parsed (ActivateVersionMessage stream version) =>
      loop_body key_prefix line w =
        (add_log (WarnActivateVersion stream version) w, Next tt)
      ∧ persist_messages key_prefix (line :: rest) w =
        persist_messages key_prefix rest
          (add_log (WarnActivateVersion stream version) w)
  | Parsed UnknownMessage =>
      loop_body key_prefix line w = (add_log WarnUnknownMessage w, Next tt)
      ∧ persist_messages key_prefix (line :: rest) w =
        persist_messages key_prefix rest (add_log WarnUnknownMessage w)
  | Parsed _ => True
  end.
Proof.
  rewrite persist_messages_cons. unfold loop_body, parse.
  destruct (parse_message line) as [[s r te|v|s sch kp bp|s v|]|e]; try done.
  destruct e; run; eexists; (split; [reflexivity|]);
    first [apply quiet_refl | apply quiet_add_log].
Qed.

(** C7.  Every value a record message writes to the bucket is the
    serialisation of the record as received followed by the field
    [_sdc_extracted_at], when the message has an extraction time and the
    record lacks the field, and by the field [_sdc_received_at], when the
    record lacks it; the fields of the record keep their values, no field
    other than these two is added, and the result has [_sdc_received_at]. *)
Theorem C7_enrichment stream record te w :
  let r := on_message key_prefix (RecordMessage stream record te) w in
  let now := utcnow_isoformat (clock_reads w) in
  let E := record ++ extracted_field te record ++ received_field now record in
  (∃ ops, requests (fst r) = requests w ++ ops ∧
     ∀ o value, o ∈ ops → op_value o = Some value → value = json_dumps E) ∧
  (∀ k x, dict_get k record = Some x → dict_get k E = Some x) ∧
  (∀ k, k ≠ "_sdc_extracted_at" → k ≠ "_sdc_received_at" →
        dict_get k E = dict_get k record) ∧
  (dict_mem "_sdc_extracted_at" E =
   dict_mem "_sdc_extracted_at" record || bool_decide (is_Some te)) ∧
  dict_mem "_sdc_received_at" E = true.
Proof.
  intros r now E. split; [|apply (enriched_fields te now record)].
  destruct (on_message_record_shape key_prefix stream record te w)
    as [(Hrq & _)|(pk & Hkv & Hr)]; fold r in Hrq || fold r in Hr.
  { exists []. rewrite app_nil_r. split; [done|]. intros o v Ho.
    by apply elem_of_nil in Ho. }
  cbn zeta in Hr. fold now in Hr. unfold enriched in Hr. fold E in Hr.
  destruct Hr as [(Hrq & _)|[(Hrq & _)|[(Hrq & _)|(rev & Hrq & _)]]];
    eexists; (split; [exact Hrq|]); intros o v Ho Hv;
    repeat (apply elem_of_cons in Ho as [->|Ho]);
    try (by apply elem_of_nil in Ho); cbn in Hv; congruence.
Qed.

(** C8.  Every request a record message sends to the bucket, a get, a
    create, an update or a put, is for the key
    [key_prefix + stream + "." + primary_key_value], where the primary key
    is [str()] of the record's value for the one key property of the
    stream. *)
Theorem C8_store_key stream record te w :
  let r := on_message key_prefix (RecordMessage stream record te) w in
  ∃ ops, requests (fst r) = requests w ++ ops ∧
    ∀ o, o ∈ ops →
      ∃ key_property v,
        key_properties w !! stream = Some [key_property] ∧
        dict_get key_property record = Some v ∧
        op_key o = key_prefix +:+ stream +:+ "." +:+ py_str v.
Proof.
  intros r.
  destruct (on_message_record_shape key_prefix stream record te w)
    as [(Hrq & _)|(pk & Hkv & Hr)]; fold r in Hrq || fold r in Hr.
  { exists []. rewrite app_nil_r. split; [done|]. intros o Ho.
    by apply elem_of_nil in Ho. }
  destruct Hkv as (s0 & kp & v & schema & _ & Hkp & Hv & -> & _).
  cbn zeta in Hr. unfold store_key in Hr.
  destruct Hr as [(Hrq & _)|[(Hrq & _)|[(Hrq & _)|(rev & Hrq & _)]]];
    eexists; (split; [exact Hrq|]); intros o Ho;
    repeat (apply elem_of_cons in Ho as [->|Ho]);
    try (by apply elem_of_nil in Ho); by exists kp, v.
Qed.

(** C9, as amended.  For a record message that reaches the conflict
    resolver, whose stream has a first bookmark property that is not
    [_sdc_received_at] (and not [_sdc_extracted_at] when the message has an
    extraction time) and whose record lacks that property: if the key is in
    the bucket with a non-empty value that is well-formed UTF-8 and decodes
    to a JSON object, the only request is the get, the record is skipped,
    and the bucket and the checkpoint are unchanged. *)
Theorem C9_missing_freshness stream record te w pk attr e bytes d :
  keyed_and_valid w stream record pk →
  bookmark_attr_of stream w = Some attr →
  dict_mem attr record = false →
  attr ≠ "_sdc_received_at" →
  te = None ∨ attr ≠ "_sdc_extracted_at" →
  KV.entries (bucket w) !! store_key key_prefix stream pk = Some e →
  KV.value e = Some bytes → bytes ≠ EmptyString →
  utf8_valid bytes = true → json_loads bytes = Some (JObj d) →
  let r := on_message key_prefix (RecordMessage stream record te) w in
  requests (fst r) = requests w ++ [Get (store_key key_prefix stream pk)] ∧
  snd r = Continue ∧ bucket (fst r) = bucket w ∧ state (fst r) = state w.
Proof.
  intros Hkv Hattr Hm Hr He Hk Hv Hne Hu Hl r. subst r.
  rewrite on_message_record, (on_record_pass key_prefix _ _ _ _ _ Hkv).
  pose proof (quiet_checked stream pk record w)
    as ((Hst & _) & Hbk & Hrq).
  pose proof (checked_bookmark_attr stream pk record w) as Hb.
  rewrite <- Hb in Hattr. rewrite <- Hbk in Hk.
  pose proof (enriched_lacks attr te (utcnow_isoformat (clock_reads w))
                record Hm Hr He) as Hlack.
  assert (freshness attr (enriched te (utcnow_isoformat (clock_reads w)) record)
          = EmptyString) as Hf.
  { unfold freshness. apply dict_mem_false in Hlack. by rewrite Hlack. }
  destruct (contains "_sdc_deleted_at" bytes) eqn:Hc.
  - erewrite resolve_deleted by eauto. run. by rewrite Hrq, Hbk, Hst.
  - erewrite resolve_compare by eauto. rewrite Hf, str_gt_empty. run.
    by rewrite Hrq, Hbk, Hst.
Qed.

(** C10.  The validator is applied to the record as received, and its
    verdict on that record alone decides what the record branch does, for
    every record that reaches it.  A record the validator turns down as
    received is turned away: the validation warning is logged after the
    warnings of the scan of the key, the clock is not read, no request is
    sent, and the loop goes on, whatever the validator would say of the
    enriched record; when the validator raises [SchemaError] the run ends
    with it.  For a record that passes as received, the record branch is
    the conflict resolver run on the enriched record, whatever the
    validator would say of the enriched record: the enriched record has
    the field [_sdc_received_at], which the validator saw only if the
    record came with it, and for a stream without bookmark the enriched
    record is put. *)
Theorem C10_validation_before_enrichment stream record te w pk validator :
  keyed w stream record pk validator →
  let now := utcnow_isoformat (clock_reads w) in
  let E := enriched te now record in
  let key := store_key key_prefix stream pk in
  let w1 := add_logs (invalid_character_warnings stream pk) w in
  let r := on_record key_prefix stream record te w in
  (∀ message path,
     validate validator record = ValidationError message path →
     r = (add_log (WarnSchemaValidation pk stream message path) w1,
          Continue)) ∧
  (validate validator record = InvalidSchema →
   r = (w1, Raise SchemaError)) ∧
  (validate validator record = Valid →
   r = resolve stream pk key E (checked stream pk record w) ∧
   dict_mem "_sdc_received_at" E = true ∧
   (dict_mem "_sdc_received_at" record = false →
    dict_get "_sdc_received_at" E = Some (JStr now)) ∧
   (bookmark_attr_of stream w = None →
    requests (fst r) = requests w ++ [Put key (json_dumps E)]
    ∧ snd r = Next tt)).
Proof.
  intros (s0 & kp & v & Hs & Hkp & Hv & -> & Hne & Hd & Hval) now E key w1 r.
  subst r. split; [|split].
  - intros message path Hr. unfold on_record. run. rewrite Hs.
    rewrite (key_checks_pass _ _ _ _ _ Hkp Hv Hne Hd).
    unfold schema_check. run. by rewrite Hval, Hr.
  - intros Hr. unfold on_record. run. rewrite Hs.
    rewrite (key_checks_pass _ _ _ _ _ Hkp Hv Hne Hd).
    unfold schema_check. run. by rewrite Hval, Hr.
  - intros Hok.
    assert (keyed_and_valid w stream record (py_str v)) as Hkv
      by (exists s0, kp, v, validator; by repeat split).
    split; [by apply on_record_pass|].
    split; [apply (enriched_fields te now record)|]. split.
    + intros Hm. unfold E, enriched, extracted_field, received_field.
      rewrite Hm, !dict_get_app. apply dict_mem_false in Hm. rewrite Hm.
      destruct te; [destruct (dict_mem "_sdc_extracted_at" record)|]; done.
    + intros Hb. rewrite (on_record_pass key_prefix _ _ _ _ _ Hkv).
      rewrite resolve_put by (by rewrite checked_bookmark_attr). run.
      by rewrite checked_requests.
Qed.

End Properties.

(** ** Keys that are turned away, and keys that are not *)

Section Keys.

Context `{Libs}.
Variable key_prefix : string.

(** A record whose primary key is empty or starts with [$] is skipped
    before any request is sent. *)
Lemma empty_or_dollar_key_rejected stream record te w schema kp v :
  schemas w !! stream = Some schema →
  key_properties w !! stream = Some [kp] →
  dict_get kp record = Some v →
  py_str v = EmptyString ∨ String.get 0 (py_str v) = Some "$"%char →
  let r := on_message key_prefix (RecordMessage stream record te) w in
  requests (fst r) = requests w ∧ bucket (fst r) = bucket w ∧
  state (fst r) = state w ∧ snd r = Continue.
Proof.
  intros Hs Hkp Hv Hpk r. subst r. rewrite on_message_record.
  unfold on_record, key_checks. run. rewrite Hs, Hkp.
  assert (dict_mem kp record = true) as -> by (apply dict_mem_true; eauto).
  cbn [negb]. unfold py_getitem. rewrite Hv. run.
  destruct (py_str v) as [|c s] eqn:Hpv; cbn [String.length Nat.eqb]; run;
    [done|].
  destruct Hpk as [|Hd]; [done|]. by rewrite bool_decide_eq_true_2.
Qed.

(** A primary key with a space, [.], [*], [>] or NUL in it is warned about
    once for each such character and is not turned away: the record goes
    on to validation and to the conflict resolver like any other. *)
Lemma invalid_character_is_not_rejected stream record te w pk c :
  keyed_and_valid w stream record pk →
  c ∈ String.list_ascii_of_string pk → invalid_character c = true →
  WarnInvalidCharacter stream c ∈ log (checked stream pk record w) ∧
  on_record key_prefix stream record te w =
  resolve stream pk (store_key key_prefix stream pk)
          (enriched te (utcnow_isoformat (clock_reads w)) record)
          (checked stream pk record w).
Proof.
  intros Hkv Hc Hi. split; [|by apply on_record_pass].
  assert (WarnInvalidCharacter stream c ∈ invalid_character_warnings stream pk)
    as Hw.
  { unfold invalid_character_warnings. apply list_elem_of_fmap_2.
    by apply list_elem_of_filter. }
  unfold checked.
  destruct (dict_mem "_sdc_received_at" record); cbn [log tick add_logs];
    apply elem_of_app; by right.
Qed.

End Keys.

(** ** The program on concrete inputs *)

Import Scenario.

(** The example of the specification: the record of 2020 is created, the
    record of 2019 is skipped as not newer, and the checkpoint that follows
    is returned. *)
Example newer_record_wins :
  let r := Ref.run EmptyString empty_bucket
             ["{'type': 'SCHEMA', 'stream': 's', 'schema': {}, 'key_properties': ['id'], 'bookmark_properties': ['updated_at']}";
              "{'type': 'RECORD', 'stream': 's', 'record': {'id': '1', 'updated_at': '2020-01-01'}}";
              "{'type': 'RECORD', 'stream': 's', 'record': {'id': '1', 'updated_at': '2019-01-01'}}";
              state_x] in
  map op_key (requests (fst r)) = ["s.1"; "s.1"; "s.1"] ∧
  map is_write (requests (fst r)) = [false; true; false] ∧
  log (fst r) = [DebugNotNewer "s" "1";
                 DebugSettingState (JObj [("x", JInt 1)])] ∧
  snd r = Next (JObj [("x", JInt 1)]).
Proof. vm_compute. by repeat split. Qed.

(** An unsupported message is logged and passed over; the line after it
    is not JSON and ends the run, so that the checkpoint message after it is
    never read. *)
Example unsupported_then_unparseable :
  let r := Ref.run EmptyString empty_bucket
             [activate_version; not_json; state_x] in
  log (fst r) = [WarnActivateVersion "s" (JInt 3);
                 ErrorUnableToParse (Ref.jq not_json)] ∧
  requests (fst r) = [] ∧ state (fst r) = JNull ∧
  snd r = Raise JSONDecodeError.
Proof. vm_compute. by repeat split. Qed.

(** C1: the claim as stated fails.  The bucket holds for the key [s.1] a
    record with [updated_at] 2019-01-01 and a field [_sdc_deleted_at]; the
    candidate has [updated_at] 2021-01-01, which is strictly greater; the
    only request is the get, and no update is sent. *)
Lemma C1_counterexample :
  let b := bucket_with stored_tombstone in
  let r := Ref.run EmptyString b [schema_bookmark; record_2021] in
  KV.entries b !! "s.1" =
    Some {| KV.value := Some (Ref.jq stored_tombstone); KV.revision := 1 |} ∧
  json_loads (Ref.jq stored_tombstone) = Some (JObj dec_tombstone) ∧
  str_lt (freshness "updated_at" dec_tombstone)
         (freshness "updated_at" rec_2021) = true ∧
  requests (fst r) = [Get "s.1"] ∧
  log (fst r) = [WarnTargetDeleted "s" "1"].
Proof. vm_compute. by repeat split. Qed.

(** C1: the amended claim at a record of 2021 for a key stored with a
    record of 2019: a get, then an update fenced by revision 1. *)
Lemma C1_witness :
  let w := after_schema schema_bookmark (bucket_with stored_2019) in
  let r := on_record EmptyString "s" rec_2021 None w in
  keyed_and_valid w "s" rec_2021 "1" ∧
  requests (fst r) =
    [Get "s.1";
     Update "s.1"
       (json_dumps (enriched None (utcnow_isoformat 0) rec_2021)) 1] ∧
  snd r = Continue.
Proof.
  intros w r.
  assert (keyed_and_valid w "s" rec_2021 "1") as Hkv.
  { exists (JObj []), "id", (JStr "1"), (JObj []).
    vm_compute. repeat split; congruence. }
  split; [exact Hkv|].
  pose proof (C1_conflict_resolver EmptyString "s" rec_2021 None w "1" Hkv)
    as Hc.
  vm_compute in Hc.
  specialize (Hc _ eq_refl eq_refl). destruct Hc as [Hc _].
  specialize (Hc eq_refl). vm_compute in Hc.
  vm_compute. exact Hc.
Defined.

(** C2: the code at a primary key with a dot in it.  The warning
    "Ignoring record ... with primary key containing invalid character" is
    logged and the record is put under the key [s.a.b]. *)
Theorem C2_invalid_character_is_stored :
  let r := Ref.run EmptyString empty_bucket [schema_plain; record_dotted_key] in
  log (fst r) = [WarnInvalidCharacter "s" "."] ∧
  requests (fst r) =
    [Put "s.a.b"
       (Ref.jq "{'id': 'a.b', '_sdc_received_at': '2025-01-01T00:00:00.000000+00:00'}")] ∧
  dom (KV.entries (bucket (fst r))) = {["s.a.b"]}.
Proof. vm_compute. by repeat split. Qed.

(** C3: the claim as stated fails.  A record for a stream without schema
    ends the run with an exception: nothing is logged, and the schema
    message and the record after it are not processed. *)
Lemma C3_counterexample :
  let r := Ref.run EmptyString empty_bucket
             [record_id_only; schema_plain; record_id_only] in
  snd r = Raise (RecordBeforeSchema "s") ∧
  log (fst r) = [] ∧ requests (fst r) = [] ∧ schemas (fst r) !! "s" = None.
Proof. vm_compute. by repeat split. Qed.

(** C3: the amended claim at a checkpoint message followed by a record for
    the stream [s], which has no schema. *)
Lemma C3_witness :
  let w := initial empty_bucket in
  let pre := [Ref.jq state_x] in
  let w1 := fst (for_in pre (loop_body EmptyString) w) in
  schemas w !! "s" = None ∧
  (∀ l o, l ∈ pre → parse_message l = Parsed o → ¬ is_schema_for "s" o) ∧
  parse_message (Ref.jq record_id_only) =
    Parsed (RecordMessage "s" rec_id_only None) ∧
  for_in pre (loop_body EmptyString) w = (w1, Next tt) ∧
  persist_messages EmptyString
    (pre ++ Ref.jq record_id_only :: [Ref.jq schema_plain]) w =
  (w1, Raise (RecordBeforeSchema "s")).
Proof.
  intros w pre w1.
  assert (schemas w !! "s" = None) as Hs by (vm_compute; reflexivity).
  assert (∀ l o, l ∈ pre → parse_message l = Parsed o →
                 ¬ is_schema_for "s" o) as Hpre.
  { intros l o Hl Hp. apply list_elem_of_singleton in Hl. subst l.
    vm_compute in Hp. injection Hp as <-. simpl. tauto. }
  assert (parse_message (Ref.jq record_id_only) =
          Parsed (RecordMessage "s" rec_id_only None)) as Hline
    by (vm_compute; reflexivity).
  assert (for_in pre (loop_body EmptyString) w = (w1, Next tt)) as Hrun
    by (vm_compute; reflexivity).
  split; [exact Hs|]. split; [exact Hpre|]. split; [exact Hline|].
  split; [exact Hrun|].
  exact (C3_record_before_schema EmptyString pre (Ref.jq record_id_only)
           [Ref.jq schema_plain] "s" rec_id_only None w w1
           Hs Hpre Hline Hrun).
Defined.

(** C4: the code at a stored record without the field [_sdc_deleted_at]
    whose text mentions that name in the value of another field.  The
    candidate is strictly fresher than the stored record; the record is
    skipped with the warning "target having been deleted" and no update is
    sent. *)
Theorem C4_marker_in_text_is_skipped :
  let b := bucket_with stored_note in
  let r := Ref.run EmptyString b [schema_bookmark; record_2021] in
  json_loads (Ref.jq stored_note) = Some (JObj dec_note) ∧
  dict_mem "_sdc_deleted_at" dec_note = false ∧
  str_gt (freshness "updated_at" rec_2021)
         (freshness "updated_at" dec_note) = true ∧
  requests (fst r) = [Get "s.1"] ∧
  log (fst r) = [WarnTargetDeleted "s" "1"].
Proof. vm_compute. by repeat split. Qed.

(** C5: the claim as stated fails.  A checkpoint is followed by a record
    that lacks the key property: the record is skipped, the checkpoint is
    still held after it and is what the run returns. *)
Lemma C5_counterexample :
  let r := Ref.run EmptyString empty_bucket
             [schema_plain; state_x; record_without_key] in
  requests (fst r) = [] ∧
  state (fst r) = JObj [("x", JInt 1)] ∧
  snd r = Next (JObj [("x", JInt 1)]).
Proof. vm_compute. by repeat split. Qed.

(** C9: the claim as stated fails.  The bookmark of the stream is
    [_sdc_received_at], the record lacks it, and the key is stored with a
    record that has neither that field nor a tombstone; the enrichment adds
    the field to the candidate, and the update is sent. *)
Lemma C9_counterexample :
  let b := bucket_with stored_id_only in
  let r := Ref.run EmptyString b [schema_bookmark_received; record_id_only] in
  parse_message (Ref.jq record_id_only) =
    Parsed (RecordMessage "s" rec_id_only None) ∧
  dict_mem "_sdc_received_at" rec_id_only = false ∧
  KV.entries b !! "s.1" =
    Some {| KV.value := Some (Ref.jq stored_id_only); KV.revision := 1 |} ∧
  contains "_sdc_deleted_at" (Ref.jq stored_id_only) = false ∧
  requests (fst r) =
    [Get "s.1";
     Update "s.1"
       (Ref.jq "{'id': '1', '_sdc_received_at': '2025-01-01T00:00:00.000000+00:00'}")
       1] ∧
  (KV.revision <$> KV.entries (bucket (fst r)) !! "s.1") = Some 2%Z.
Proof. vm_compute. by repeat split. Qed.

(** C9: the amended claim at a record without [updated_at], the bookmark
    of its stream, for a key stored with a record of 2019. *)
Lemma C9_witness :
  let w := after_schema schema_bookmark (bucket_with stored_2019) in
  let r := on_message EmptyString (RecordMessage "s" rec_id_only None) w in
  keyed_and_valid w "s" rec_id_only "1" ∧
  requests (fst r) = [Get "s.1"] ∧ snd r = Continue ∧
  bucket (fst r) = bucket w ∧ state (fst r) = state w.
Proof.
  intros w r.
  assert (keyed_and_valid w "s" rec_id_only "1") as Hkv.
  { exists (JObj []), "id", (JStr "1"), (JObj []).
    vm_compute. repeat split; congruence. }
  split; [exact Hkv|].
  assert (json_loads (Ref.jq stored_2019) =
          Some (JObj [("id", JStr "1"); ("updated_at", JStr "2019-01-01")]))
    as Hl by (vm_compute; reflexivity).
  exact (C9_missing_freshness EmptyString "s" rec_id_only None w "1"
           "updated_at"
           {| KV.value := Some (Ref.jq stored_2019); KV.revision := 1 |}
           (Ref.jq stored_2019)
           [("id", JStr "1"); ("updated_at", JStr "2019-01-01")]
           Hkv
           ltac:(vm_compute; reflexivity)
           ltac:(vm_compute; reflexivity)
           ltac:(discriminate)
           ltac:(by left)
           ltac:(vm_compute; reflexivity)
           ltac:(reflexivity)
           ltac:(vm_compute; discriminate)
           ltac:(vm_compute; reflexivity)
           Hl).
Defined.

(** C10, both ways.  At a stream whose schema allows the field [id] only,
    the record as received is valid, the enriched record is not, and the
    enriched record is put.  At a stream whose schema wants the field
    [_sdc_received_at], the record as received is not valid, the enriched
    record would be, and the record is turned away without a request. *)
Lemma C10_witness :
  let w := after_schema schema_closed empty_bucket in
  let E := enriched None (utcnow_isoformat (clock_reads w)) rec_id_only in
  let r := on_record EmptyString "s" rec_id_only None w in
  let w' := after_schema Cases.schema_wants_receipt empty_bucket in
  let E' := enriched None (utcnow_isoformat (clock_reads w')) rec_id_only in
  let r' := on_record EmptyString "s" rec_id_only None w' in
  (keyed w "s" rec_id_only "1" closed_schema ∧
   validate closed_schema rec_id_only = Valid ∧
   validate closed_schema E =
     ValidationError
       "Additional properties are not allowed ('_sdc_received_at' was unexpected)"
       EmptyString ∧
   requests (fst r) = requests w ++ [Put "s.1" (json_dumps E)] ∧
   snd r = Next tt) ∧
  (keyed w' "s" rec_id_only "1" Cases.receipt_schema ∧
   validate Cases.receipt_schema rec_id_only =
     ValidationError "'_sdc_received_at' is a required property" EmptyString ∧
   validate Cases.receipt_schema E' = Valid ∧
   r' = (add_log (WarnSchemaValidation "1" "s"
                    "'_sdc_received_at' is a required property" EmptyString)
           (add_logs (invalid_character_warnings "s" "1") w'),
         Continue)).
Proof.
  intros w E r w' E' r'.
  assert (keyed w "s" rec_id_only "1" closed_schema) as Hk.
  { exists closed_schema, "id", (JStr "1").
    vm_compute. repeat split; congruence. }
  assert (validate closed_schema rec_id_only = Valid) as Hok
    by (vm_compute; reflexivity).
  assert (keyed w' "s" rec_id_only "1" Cases.receipt_schema) as Hk'.
  { exists Cases.receipt_schema, "id", (JStr "1").
    vm_compute. repeat split; congruence. }
  assert (validate Cases.receipt_schema rec_id_only =
          ValidationError "'_sdc_received_at' is a required property"
            EmptyString) as Hno
    by (vm_compute; reflexivity).
  split.
  - split; [exact Hk|]. split; [exact Hok|].
    split; [vm_compute; reflexivity|].
    exact (proj2 (proj2 (proj2
             (proj2 (proj2
                (C10_validation_before_enrichment EmptyString "s" rec_id_only
                   None w "1" closed_schema Hk))
              Hok)))
           ltac:(vm_compute; reflexivity)).
  - split; [exact Hk'|]. split; [exact Hno|].
    split; [vm_compute; reflexivity|].
    exact (proj1
             (C10_validation_before_enrichment EmptyString "s" rec_id_only
                None w' "1" Cases.receipt_schema Hk')
           _ _ Hno).
Defined.

(** ** Further properties *)

(** *** The bucket after a write *)

Lemma write_lookup k v b :
  KV.entries (KV.write k v b) !! k =
  Some {| KV.value := Some v; KV.revision := (KV.seq b + 1)%Z |}.
Proof. unfold KV.write. cbn [KV.entries]. by rewrite lookup_insert_eq. Qed.

Lemma write_lookup_ne k k' v b :
  k ≠ k' → KV.entries (KV.write k v b) !! k' = KV.entries b !! k'.
Proof. intros Hk. unfold KV.write. cbn [KV.entries]. by rewrite lookup_insert_ne. Qed.

Lemma write_dom k v b :
  dom (KV.entries b) ⊆ dom (KV.entries (KV.write k v b)).
Proof. unfold KV.write. cbn [KV.entries]. rewrite dom_insert_L. set_solver. Qed.

Lemma write_seq k v b : KV.seq (KV.write k v b) = (KV.seq b + 1)%Z.
Proof. done. Qed.


(** *** Strings *)

Lemma contains_char_cons a c s :
  contains (String a EmptyString) (String c s) = false →
  c ≠ a ∧ contains (String a EmptyString) s = false.
Proof.
  cbn [contains String.prefix]. destruct (ascii_dec a c) as [<-|Hc].
  - by destruct s.
  - rewrite orb_false_l. by split; [congruence|].
Qed.


Section Effects.
Context `{Libs}.
Variable key_prefix : string.

Lemma resolve_effect stream pk key record w :
  let r := resolve stream pk key record w in
  let value := json_dumps record in
  (requests (fst r) = requests w ++ [Put key value] ∧
   bucket (fst r) = KV.write key value (bucket w) ∧ snd r = Next tt)
  ∨ (requests (fst r) = requests w ++ [Get key; Create key value] ∧
     KV.entries (bucket w) !! key = None ∧
     bucket (fst r) = KV.write key value (bucket w) ∧ snd r = Next tt)
  ∨ (requests (fst r) = requests w ++ [Get key] ∧
     bucket (fst r) = bucket w ∧
     (snd r = Continue ∨ snd r = Raise UnicodeDecodeError ∨
      snd r = Raise JSONDecodeError ∨ snd r = Raise TypeError))
  ∨ (∃ e, KV.entries (bucket w) !! key = Some e ∧
     requests (fst r) =
       requests w ++ [Get key; Update key value (KV.revision e)] ∧
     bucket (fst r) = KV.write key value (bucket w) ∧ snd r = Continue).
Proof.
  intros r value. subst r value.
  destruct (bookmark_attr_of stream w) as [attr|] eqn:Hb.
  2: { rewrite resolve_put by done. run. by left. }
  destruct (KV.entries (bucket w) !! key) as [e|] eqn:Hk.
  2: { erewrite resolve_create by done. run. right; left.
       by rewrite <- app_assoc. }
  unfold resolve. run. rewrite Hb. run.
  destruct (bookmark_source_spec attr record w) as (src & _ & ->).
  unfold compare_and_update. run. rewrite Hk. run.
  unfold decode_utf8, py_in, py_getitem.
  repeat (case_match; run; simplify_eq; run).
  all: repeat match goal with
       | Hx : KV.entries _ !! _ = _, Hy : KV.entries _ !! _ = _ |- _ =>
           rewrite Hy in Hx; simplify_eq
       | Hx : (?z =? ?z)%Z = false |- _ => rewrite Z.eqb_refl in Hx; simplify_eq
       end.
  all: try (right; right; left; split; [done|]; split; [done|]; tauto).
  all: try match goal with
       | Hm : dict_mem ?k ?d = true, Hg : dict_get ?k ?d = None |- _ =>
           apply dict_mem_true in Hm as [? ?]; congruence
       end.
  all: right; right; right; eexists; split; [done|];
       split; [by rewrite <- app_assoc | done].
Qed.

Lemma schema_check_flow stream pk record w :
  snd (schema_check stream pk record w) = Next tt
  ∨ snd (schema_check stream pk record w) = Continue
  ∨ (validators w !! stream = None ∧
     snd (schema_check stream pk record w) = Raise KeyError)
  ∨ snd (schema_check stream pk record w) = Raise SchemaError.
Proof.
  unfold schema_check. run.
  destruct (validators w !! stream) as [schema|]; run; [|by right; right; left].
  destruct (validate schema record); run; tauto.
Qed.

Lemma on_record_turned_away stream record te w :
  (∃ pk, keyed_and_valid w stream record pk)
  ∨ (quiet w (fst (on_record key_prefix stream record te w)) ∧
     (snd (on_record key_prefix stream record te w) = Continue
      ∨ (schemas w !! stream = None ∧
         snd (on_record key_prefix stream record te w) =
           Raise (RecordBeforeSchema stream))
      ∨ (is_Some (schemas w !! stream) ∧ validators w !! stream = None ∧
         snd (on_record key_prefix stream record te w) = Raise KeyError)
      ∨ snd (on_record key_prefix stream record te w) = Raise SchemaError)).
Proof.
  destruct (schemas w !! stream) as [s0|] eqn:Hs.
  2: { right. unfold on_record. run. rewrite Hs. run.
       split; [apply quiet_refl|]. right; left. done. }
  destruct (key_checks_spec stream record w) as [Hq1 Hk].
  destruct (key_checks stream record w) as [w1 f1] eqn:Hkc.
  cbn [fst snd] in Hq1, Hk.
  destruct f1 as [pk| |e]; [| |done].
  2: { right. unfold on_record. run. rewrite Hs, Hkc. split; [done|]. by left. }
  destruct Hk as (kp & v & Hkp & Hv & -> & Hne & Hd).
  destruct (schema_check_spec stream (py_str v) record w1) as [Hq2 Hsc].
  pose proof (schema_check_flow stream (py_str v) record w1) as Hfl.
  destruct (schema_check stream (py_str v) record w1) as [w2 f2] eqn:Hsc'.
  cbn [fst snd] in Hq2, Hsc, Hfl.
  pose proof (quiet_trans _ _ _ Hq1 Hq2) as Hq.
  assert (validators w1 = validators w) as Hv1 by apply Hq1.
  destruct Hfl as [->|[->|[[Hn ->]| ->]]].
  - destruct Hsc as (Heq & schema & Hval & Hok). rewrite Hv1 in Hval.
    left. exists (py_str v), s0, kp, v, schema. by repeat split.
  - right. unfold on_record. run. rewrite Hs, Hkc. run. rewrite Hsc'.
    split; [done|]. by left.
  - right. unfold on_record. run. rewrite Hs, Hkc. run. rewrite Hsc'.
    split; [done|]. right; right; left. rewrite Hv1 in Hn. by eauto.
  - right. unfold on_record. run. rewrite Hs, Hkc. run. rewrite Hsc'.
    split; [done|]. by right; right; right.
Qed.

(** All that a record message does. *)
Lemma on_message_record_effect stream record te w :
  let r := on_message key_prefix (RecordMessage stream record te) w in
  same_registries w (fst r) ∧
  ((requests (fst r) = requests w ∧ bucket (fst r) = bucket w ∧
    state (fst r) = state w ∧
    (snd r = Continue
     ∨ (schemas w !! stream = None ∧ snd r = Raise (RecordBeforeSchema stream))
     ∨ (is_Some (schemas w !! stream) ∧ validators w !! stream = None ∧
        snd r = Raise KeyError)
     ∨ snd r = Raise SchemaError))
   ∨ ∃ pk, keyed_and_valid w stream record pk ∧
      let key := store_key key_prefix stream pk in
      let value :=
        json_dumps (enriched te (utcnow_isoformat (clock_reads w)) record) in
      ((requests (fst r) = requests w ++ [Put key value] ∧
        bucket (fst r) = KV.write key value (bucket w) ∧
        state (fst r) = JNull ∧ snd r = Next tt)
       ∨ (requests (fst r) = requests w ++ [Get key; Create key value] ∧
          KV.entries (bucket w) !! key = None ∧
          bucket (fst r) = KV.write key value (bucket w) ∧
          state (fst r) = JNull ∧ snd r = Next tt)
       ∨ (requests (fst r) = requests w ++ [Get key] ∧
          bucket (fst r) = bucket w ∧ state (fst r) = state w ∧
          (snd r = Continue ∨ snd r = Raise UnicodeDecodeError ∨
           snd r = Raise JSONDecodeError ∨ snd r = Raise TypeError))
       ∨ (∃ e, KV.entries (bucket w) !! key = Some e ∧
          requests (fst r) =
            requests w ++ [Get key; Update key value (KV.revision e)] ∧
          bucket (fst r) = KV.write key value (bucket w) ∧
          state (fst r) = state w ∧ snd r = Continue))).
Proof.
  intros r. subst r. rewrite on_message_record.
  pose proof (on_record_shape key_prefix stream record te w) as [Hl _].
  destruct Hl as (Hst & Hs1 & Hs2 & Hs3 & Hs4).
  destruct (on_record_turned_away stream record te w) as [[pk Hkv]|[Hq Hf]].
  - assert (same_registries w (fst (on_record key_prefix stream record te w)))
      as Hreg by done.
    rewrite (on_record_pass key_prefix _ _ _ _ _ Hkv) in *.
    pose proof (quiet_checked stream pk record w) as (_ & Hbk & Hrq).
    pose proof (resolve_effect stream pk (store_key key_prefix stream pk)
                  (enriched te (utcnow_isoformat (clock_reads w)) record)
                  (checked stream pk record w)) as Hr.
    cbn zeta in Hr. rewrite Hrq, Hbk in Hr.
    destruct (resolve _ _ _ _ _) as [w' f]. cbn [fst snd] in *.
    destruct Hr as [(Hr1 & Hr2 & ->)|[(Hr1 & Hr2 & Hr3 & ->)|
                    [(Hr1 & Hr2 & Hr3)|(e & Hr1 & Hr2 & Hr3 & ->)]]];
      cbn [fst snd set_state state requests bucket schemas key_properties
           bookmarks validators].
    + split; [done|]. right. exists pk. split; [done|]. by left.
    + split; [done|]. right. exists pk. split; [done|]. by right; left.
    + assert ((let (w'0, f0) := (w', f) in
               match f0 with
               | Next _ => (set_state JNull w'0, Next ())
               | Continue => (w'0, Continue)
               | Raise e => (w'0, Raise e)
               end) = (w', f)) as ->
        by (destruct Hr3 as [->|[->|[->| ->]]]; done).
      split; [done|]. right. exists pk. split; [done|].
      right; right; left. by repeat split.
    + split; [done|]. right. exists pk. split; [done|].
      right; right; right. by exists e.
  - destruct (on_record key_prefix stream record te w) as [w' f].
    cbn [fst snd] in *. destruct Hq as (_ & Hbk & Hrq).
    assert ((match f with
               | Next _ => (set_state JNull w', Next ())
               | Continue => (w', Continue)
               | Raise e => (w', Raise e)
               end) = (w', f)) as ->
      by (destruct Hf as [->|[[_ ->]|[(_ & _ & ->)| ->]]]; done).
    split; [done|]. left. by repeat split.
Qed.

(** X1 (lines 84-92).  A record for a stream that has a schema but not
    exactly one key property is skipped: the warning "needs exactly 1
    configured key property" is logged and nothing else changes, no
    request is sent, the checkpoint is kept and the loop goes on. *)
Theorem X1_key_property_count stream record te w schema :
  schemas w !! stream = Some schema →
  (∀ kp, key_properties w !! stream ≠ Some [kp]) →
  on_message key_prefix (RecordMessage stream record te) w =
  (add_log (WarnNeedsOneKeyProperty stream) w, Continue).
Proof.
  intros Hs Hkp. rewrite on_message_record. unfold on_record, key_checks. run.
  rewrite Hs.
  destruct (key_properties w !! stream) as [[|kp [|]]|] eqn:Hk; try done.
  by destruct (Hkp kp).
Qed.

(** X2 (lines 94-103).  A record that lacks the key property of its
    stream is skipped: the warning "missing configured key property" is
    logged and nothing else changes, no request is sent, the checkpoint is
    kept and the loop goes on. *)
Theorem X2_missing_key_property stream record te w schema kp :
  schemas w !! stream = Some schema →
  key_properties w !! stream = Some [kp] →
  dict_mem kp record = false →
  on_message key_prefix (RecordMessage stream record te) w =
  (add_log (WarnMissingKeyProperty stream kp) w, Continue).
Proof.
  intros Hs Hkp Hm. rewrite on_message_record. unfold on_record, key_checks.
  run. by rewrite Hs, Hkp, Hm.
Qed.

(** X3 (lines 105-122).  A record whose primary key is the empty string
    is skipped with the warning "empty primary key", and one whose primary
    key starts with [$] with the warning "primary key starting with $";
    in both cases nothing else changes: the scan of the key, the validator
    and the clock are not reached. *)
Theorem X3_empty_or_reserved_key stream record te w schema kp v :
  schemas w !! stream = Some schema →
  key_properties w !! stream = Some [kp] →
  dict_get kp record = Some v →
  (py_str v = EmptyString →
   on_message key_prefix (RecordMessage stream record te) w =
   (add_log (WarnEmptyPrimaryKey stream) w, Continue)) ∧
  (String.get 0 (py_str v) = Some "$"%char →
   on_message key_prefix (RecordMessage stream record te) w =
   (add_log (WarnPrimaryKeyDollar stream) w, Continue)).
Proof.
  intros Hs Hkp Hv.
  assert (dict_mem kp record = true) as Hm by (apply dict_mem_true; eauto).
  split; intros Hpk; rewrite on_message_record; unfold on_record, key_checks;
    run; rewrite Hs, Hkp, Hm; cbn [negb]; unfold py_getitem; rewrite Hv; run.
  - by rewrite Hpk.
  - destruct (py_str v) as [|c s]; [done|]. cbn [String.length Nat.eqb].
    by rewrite bool_decide_eq_true_2.
Qed.

(** X4 (lines 135-148).  A record that passed the key checks and that the
    validator of its stream turns down is skipped: after the warnings of
    the scan of the key, the warning with the primary key, the stream, the
    message and the path of the validation error is logged, the clock is
    not read and no request is sent.  When the validator raises
    [SchemaError], the run ends with it. *)
Theorem X4_validation_failure stream record te w schema kp v validator :
  schemas w !! stream = Some schema →
  key_properties w !! stream = Some [kp] →
  dict_get kp record = Some v →
  py_str v ≠ EmptyString →
  String.get 0 (py_str v) ≠ Some "$"%char →
  validators w !! stream = Some validator →
  let w1 := add_logs (invalid_character_warnings stream (py_str v)) w in
  (∀ message path,
     validate validator record = ValidationError message path →
     on_message key_prefix (RecordMessage stream record te) w =
     (add_log (WarnSchemaValidation (py_str v) stream message path) w1,
      Continue)) ∧
  (validate validator record = InvalidSchema →
   on_message key_prefix (RecordMessage stream record te) w =
   (w1, Raise SchemaError)).
Proof.
  intros Hs Hkp Hv Hne Hd Hval w1.
  split; [intros message path Hr|intros Hr];
    rewrite on_message_record; unfold on_record; run; rewrite Hs;
    rewrite (key_checks_pass _ _ _ _ _ Hkp Hv Hne Hd);
    unfold schema_check; run; by rewrite Hval, Hr.
Qed.

Lemma dotless_prefix_inj s1 s2 k1 k2 :
  contains "." s1 = false → contains "." s2 = false →
  s1 +:+ "." +:+ k1 = s2 +:+ "." +:+ k2 → s1 = s2 ∧ k1 = k2.
Proof.
  revert s2. induction s1 as [|c1 s1 IH]; intros [|c2 s2] H1 H2 Heq;
    cbn [String.append] in Heq.
  - by simplify_eq.
  - destruct (contains_char_cons _ _ _ H2) as [Hc _]. by simplify_eq.
  - destruct (contains_char_cons _ _ _ H1) as [Hc _]. by simplify_eq.
  - destruct (contains_char_cons _ _ _ H1) as [_ H1'].
    destruct (contains_char_cons _ _ _ H2) as [_ H2'].
    injection Heq as -> Heq.
    by destruct (IH s2 H1' H2' Heq) as [-> ->].
Qed.

(** X5 (line 150).  For stream names without a dot, the key determines
    the stream and the primary key: two records get the same key only when
    they are of the same stream and have the same primary key. *)
Theorem X5_store_key_injective stream1 pk1 stream2 pk2 :
  contains "." stream1 = false → contains "." stream2 = false →
  store_key key_prefix stream1 pk1 = store_key key_prefix stream2 pk2 →
  stream1 = stream2 ∧ pk1 = pk2.
Proof.
  intros H1 H2 Heq. unfold store_key in Heq.
  apply (inj (String.append key_prefix)) in Heq.
  by apply dotless_prefix_inj.
Qed.
End Effects.

Section Runs.
Context `{Libs}.
Variable key_prefix : string.

(** X6 (lines 208-212, 227-236).  What a record message writes is what the
    bucket holds afterwards: for each create, update or put among its
    requests, a get of the key on the resulting bucket returns the value
    written, at the revision that follows the sequence number of the
    bucket, and every other key is as before; when the message sends no
    write, the bucket is unchanged. *)
Theorem X6_written_value_is_stored stream record te w :
  let r := on_message key_prefix (RecordMessage stream record te) w in
  ∃ ops, requests (fst r) = requests w ++ ops ∧
    (∀ o v, o ∈ ops → op_value o = Some v →
       KV.get (op_key o) (bucket (fst r)) =
         inr {| KV.value := Some v;
                KV.revision := (KV.seq (bucket w) + 1)%Z |} ∧
       ∀ k, k ≠ op_key o →
            KV.entries (bucket (fst r)) !! k = KV.entries (bucket w) !! k) ∧
    (Forall (λ o, is_write o = false) ops → bucket (fst r) = bucket w).
Proof.
  intros r.
  destruct (on_message_record_effect key_prefix stream record te w)
    as [_ [(Hrq & Hbk & _)|(pk & _ & Hr)]]; fold r in Hrq, Hbk || fold r in Hr.
  { exists []. rewrite app_nil_r. split; [done|]. split; [|done].
    intros o v Ho. by apply elem_of_nil in Ho. }
  cbn zeta in Hr.
  assert (∀ k v o (ops : list Op),
            bucket (fst r) = KV.write k v (bucket w) →
            (∀ o', o' ∈ ops → o' = Get k ∨ (o' = o ∧ op_key o = k ∧
                                             op_value o = Some v)) →
            ∀ o' v', o' ∈ ops → op_value o' = Some v' →
              KV.get (op_key o') (bucket (fst r)) =
                inr {| KV.value := Some v';
                       KV.revision := (KV.seq (bucket w) + 1)%Z |} ∧
              ∀ k', k' ≠ op_key o' →
                    KV.entries (bucket (fst r)) !! k' =
                    KV.entries (bucket w) !! k') as Hwrite.
  { intros k v o ops Hbk Hops o' v' Ho' Hv'.
    destruct (Hops o' Ho') as [->|(-> & Hk & Hv)]; [done|].
    rewrite Hv in Hv'. injection Hv' as <-. rewrite Hk, Hbk.
    unfold KV.get. rewrite write_lookup. split; [done|].
    intros k' Hk'. by apply write_lookup_ne. }
  destruct Hr as [(Hrq & Hbk & _)|[(Hrq & _ & Hbk & _)|[(Hrq & Hbk & _)|
                  (e & _ & Hrq & Hbk & _)]]];
    eexists; (split; [exact Hrq|]); split.
  - eapply Hwrite; [exact Hbk|].
    intros o' Ho'. apply list_elem_of_singleton in Ho' as ->. by right.
  - intros Hw. by apply Forall_cons_1 in Hw as [[=] _].
  - eapply Hwrite; [exact Hbk|].
    intros o' Ho'. apply elem_of_cons in Ho' as [->|Ho']; [by left|].
    apply list_elem_of_singleton in Ho' as ->. by right.
  - intros Hw. apply Forall_cons_1 in Hw as [_ Hw].
    by apply Forall_cons_1 in Hw as [[=] _].
  - intros o v Ho Hv. by apply list_elem_of_singleton in Ho as ->.
  - done.
  - eapply Hwrite; [exact Hbk|].
    intros o' Ho'. apply elem_of_cons in Ho' as [->|Ho']; [by left|].
    apply list_elem_of_singleton in Ho' as ->. by right.
  - intros Hw. apply Forall_cons_1 in Hw as [_ Hw].
    by apply Forall_cons_1 in Hw as [[=] _].
Qed.

(** *** Whole runs *)

Lemma extends_refl w : extends w w.
Proof. by repeat split. Qed.

Lemma extends_trans w1 w2 w3 : extends w1 w2 → extends w2 w3 → extends w1 w3.
Proof.
  intros (Hr1 & Hd1 & Hs1 & Hk1) (Hr2 & Hd2 & Hs2 & Hk2).
  split; [by etrans|]. split; [by etrans|]. split; [lia|by etrans].
Qed.

Lemma extends_quiet w w' : quiet w w' → extends w w'.
Proof.
  intros ((_ & Hs & _) & Hb & Hr). unfold extends. by rewrite Hr, Hb, Hs.
Qed.

Lemma on_message_extends o w : extends w (fst (on_message key_prefix o w)).
Proof.
  destruct o as [s r te|v|s sch kp bp|s v|].
  - destruct (on_message_record_effect key_prefix s r te w)
      as [(Hs & _) [(Hrq & Hbk & _)|(pk & _ & Hr)]].
    { unfold extends. by rewrite Hrq, Hbk, Hs. }
    cbn zeta in Hr. unfold extends. rewrite Hs.
    destruct Hr as [(Hrq & Hbk & _)|[(Hrq & _ & Hbk & _)|[(Hrq & Hbk & _)|
                    (e & _ & Hrq & Hbk & _)]]]; rewrite Hrq, Hbk;
      (split; [by apply prefix_app_r|]);
      first [ by repeat split
            | split; [apply write_dom|]; split; [rewrite write_seq; lia|done] ].
  - unfold on_message. run. by repeat split.
  - unfold on_message. run. unfold extends. run.
    split; [done|]. split; [done|]. split; [reflexivity|].
    rewrite dom_insert_L. set_solver.
  - unfold on_message. run. by repeat split.
  - unfold on_message. run. by repeat split.
Qed.

Lemma loop_body_extends line w :
  extends w (fst (loop_body key_prefix line w)).
Proof.
  unfold loop_body, parse. run.
  destruct (parse_message line) as [o|e]; run.
  - pose proof (on_message_extends o w) as Ho.
    by destruct (on_message key_prefix o w) as [w' [[]| |e]].
  - destruct e; run; by repeat split.
Qed.

Lemma for_in_extends input w :
  extends w (fst (for_in input (loop_body key_prefix) w)).
Proof.
  revert w. induction input as [|line input IH]; intros w; simpl.
  { apply extends_refl. }
  pose proof (loop_body_extends line w) as Hb.
  destruct (loop_body key_prefix line w) as [w' [[]| |e]]; cbn [fst] in *;
    [by eapply extends_trans..|done].
Qed.

Lemma for_in_flow {A} (xs : list A) body w :
  snd (for_in xs body w) ≠ Continue.
Proof.
  revert w. induction xs as [|x xs IH]; intros w; simpl; [done|].
  by destruct (body x w) as [w' [[]| |e]].
Qed.

Lemma persist_messages_for_in input w :
  persist_messages key_prefix input w =
  match for_in input (loop_body key_prefix) w with
  | (w', Next _) => (w', Next (state w'))
  | (w', Continue) => (w', Continue)
  | (w', Raise e) => (w', Raise e)
  end.
Proof.
  unfold persist_messages. run.
  by destruct (for_in input (loop_body key_prefix) w) as [w' [[]| |e]].
Qed.

Lemma persist_messages_world input w :
  fst (persist_messages key_prefix input w) =
  fst (for_in input (loop_body key_prefix) w).
Proof.
  rewrite persist_messages_for_in.
  by destruct (for_in input (loop_body key_prefix) w) as [w' [[]| |e]].
Qed.

(** X7.  Over a whole run, whether it ends normally or with an exception,
    nothing is taken back: the requests already sent are a prefix of the
    requests at the end, every key of the bucket is still a key, the
    sequence number of the bucket does not decrease, and every stream with
    a schema still has one. *)
Theorem X7_run_extends input w :
  let w' := fst (persist_messages key_prefix input w) in
  requests w `prefix_of` requests w' ∧
  dom (KV.entries (bucket w)) ⊆ dom (KV.entries (bucket w')) ∧
  (KV.seq (bucket w) ≤ KV.seq (bucket w'))%Z ∧
  dom (schemas w) ⊆ dom (schemas w').
Proof.
  intros w'. subst w'. rewrite persist_messages_world. apply for_in_extends.
Qed.

(** X8.  Only record messages reach the bucket: a run over input without
    any record message sends no request and leaves the bucket as it
    was. *)
Theorem X8_only_records_reach_the_bucket input w :
  (∀ line stream record te,
     line ∈ input → parse_message line ≠ Parsed (RecordMessage stream record te)) →
  requests (fst (persist_messages key_prefix input w)) = requests w ∧
  bucket (fst (persist_messages key_prefix input w)) = bucket w.
Proof.
  rewrite persist_messages_world. revert w.
  induction input as [|line input IH]; intros w Hin; simpl; [done|].
  assert (requests (fst (loop_body key_prefix line w)) = requests w ∧
          bucket (fst (loop_body key_prefix line w)) = bucket w) as [Hr Hb].
  { unfold loop_body, parse. run.
    destruct (parse_message line) as [[s r te|v|s sch kp bp|s v|]|e] eqn:Hp;
      try (by unfold on_message; run).
    - by destruct (Hin line s r te (list_elem_of_here _ _)).
    - by destruct e; run. }
  assert (∀ l stream record te, l ∈ input →
            parse_message l ≠ Parsed (RecordMessage stream record te)) as Hin'
    by (intros l s r te Hl; apply Hin; by apply list_elem_of_further).
  destruct (loop_body key_prefix line w) as [w' [[]| |e]]; cbn [fst] in *;
    [rewrite <- Hr, <- Hb; by apply IH..|done].
Qed.

(** X12 (lines 239-241, 256).  When the last line of the input is a state
    message and the lines before it are handled without an exception, the
    run returns the value of that message, whatever checkpoint was held
    before. *)
Theorem X12_last_checkpoint_is_returned pre line value w w1 :
  for_in pre (loop_body key_prefix) w = (w1, Next tt) →
  parse_message line = Parsed (StateMessage value) →
  persist_messages key_prefix (pre ++ [line]) w =
  (set_state value (add_log (DebugSettingState value) w1), Next value).
Proof.
  intros Hpre Hline.
  rewrite (persist_messages_app key_prefix _ _ _ _ Hpre).
  rewrite persist_messages_cons. unfold loop_body, parse. rewrite Hline.
  unfold on_message, persist_messages. by run.
Qed.

Lemma loop_body_state line w :
  state (fst (loop_body key_prefix line w)) = state w
  ∨ state (fst (loop_body key_prefix line w)) = JNull
  ∨ parse_message line =
      Parsed (StateMessage (state (fst (loop_body key_prefix line w)))).
Proof.
  unfold loop_body, parse. run.
  destruct (parse_message line) as [[s r te|v|s sch kp bp|s v|]|e] eqn:Hp.
  - run. pose proof (on_message_record_shape key_prefix s r te w) as Hr.
    cbn zeta in Hr.
    destruct (on_message key_prefix (RecordMessage s r te) w) as [w' f].
    cbn [fst snd] in Hr.
    assert (state w' = state w ∨ state w' = JNull) as Hst.
    { destruct Hr as [(_ & -> & _)|(pk & _ & [(_ & -> & _)|[(_ & -> & _)|
                      [(_ & -> & _)|(rev & _ & -> & _)]]])]; tauto. }
    destruct f as [[]| |e]; cbn [fst]; tauto.
  - unfold on_message. run. by right; right.
  - unfold on_message. run. by left.
  - unfold on_message. run. by left.
  - unfold on_message. run. by left.
  - destruct e; run; by left.
Qed.

Lemma for_in_state input w :
  state (fst (for_in input (loop_body key_prefix) w)) = state w
  ∨ state (fst (for_in input (loop_body key_prefix) w)) = JNull
  ∨ ∃ line, line ∈ input ∧
      parse_message line =
        Parsed (StateMessage
                  (state (fst (for_in input (loop_body key_prefix) w)))).
Proof.
  revert w. induction input as [|line input IH]; intros w; simpl; [by left|].
  pose proof (loop_body_state line w) as Hb.
  destruct (loop_body key_prefix line w) as [w' [[]| |e]]; cbn [fst] in *.
  3: { destruct Hb as [Hb|[Hb|Hb]]; [tauto..|].
       right; right. exists line. split; [apply list_elem_of_here | done]. }
  all: destruct (IH w') as [Hi|[Hi|(l & Hl & Hi)]];
    [ rewrite Hi; destruct Hb as [Hb|[Hb|Hb]]; [tauto..|];
      right; right; exists line; split; [apply list_elem_of_here | done]
    | tauto
    | right; right; exists l; split; [by apply list_elem_of_further | done] ].
Qed.

(** X13 (lines 63, 238-241, 256).  The checkpoint a run returns is the one
    held at its start, [None], or the value of a state message of the
    input. *)
Theorem X13_checkpoint_provenance input w w' st :
  persist_messages key_prefix input w = (w', Next st) →
  st = state w ∨ st = JNull ∨
  ∃ line, line ∈ input ∧ parse_message line = Parsed (StateMessage st).
Proof.
  rewrite persist_messages_for_in. intros Hrun.
  pose proof (for_in_state input w) as Hst.
  destruct (for_in input (loop_body key_prefix) w) as [w1 [[]| |e]];
    [|done..].
  injection Hrun as <- <-. exact Hst.
Qed.
End Runs.

Lemma in_sync_initial b : in_sync (initial b).
Proof. intros stream. cbn. rewrite !lookup_empty. by repeat split. Qed.



Lemma str_gt_irrefl s : str_gt s s = false.
Proof.
  unfold str_gt. pose proof (String.compare_antisym s s) as Hc.
  by destruct (String.compare s s).
Qed.

Lemma str_gt_asym a b : str_gt a b = true → str_gt b a = false.
Proof.
  unfold str_gt. rewrite (String.compare_antisym a b).
  by destruct (String.compare b a).
Qed.

Section Registries.
Context `{Libs}.
Variable key_prefix : string.




End Registries.

Section TwoRecords.
Context `{Libs}.
Variable key_prefix : string.

Lemma keyed_and_valid_registries w w' stream record pk :
  same_registries w w' →
  keyed_and_valid w stream record pk → keyed_and_valid w' stream record pk.
Proof.
  intros (Hs & Hk & _ & Hv) (s0 & kp & v & val & H1 & H2 & H3 & Hrest).
  exists s0, kp, v, val. by rewrite Hs, Hk, Hv.
Qed.

Lemma bookmark_attr_registries w w' stream :
  same_registries w w' → bookmark_attr_of stream w' = bookmark_attr_of stream w.
Proof. intros (_ & _ & Hb & _). unfold bookmark_attr_of. by rewrite Hb. Qed.

Lemma freshness_enriched attr te now record :
  dict_mem attr record = true →
  freshness attr (enriched te now record) = freshness attr record.
Proof.
  intros Hm. apply dict_mem_true in Hm as [x Hx]. unfold freshness.
  destruct (enriched_fields te now record) as [Hkeep _].
  by rewrite (Hkeep attr x Hx), Hx.
Qed.

(** A record for a key that is not in the bucket, on the bookmark path. *)
Lemma record_created stream record te w pk attr :
  keyed_and_valid w stream record pk →
  bookmark_attr_of stream w = Some attr →
  KV.entries (bucket w) !! store_key key_prefix stream pk = None →
  let r := on_message key_prefix (RecordMessage stream record te) w in
  let key := store_key key_prefix stream pk in
  let value :=
    json_dumps (enriched te (utcnow_isoformat (clock_reads w)) record) in
  same_registries w (fst r) ∧
  bucket (fst r) = KV.write key value (bucket w) ∧
  requests (fst r) = requests w ++ [Get key; Create key value] ∧
  snd r = Next tt.
Proof.
  intros Hkv Hb Hk r key value.
  destruct (on_message_record_effect key_prefix stream record te w) as [Hreg _].
  split; [exact Hreg|]. subst r.
  rewrite on_message_record, (on_record_pass key_prefix _ _ _ _ _ Hkv).
  erewrite resolve_create;
    [|by rewrite checked_bookmark_attr|by rewrite checked_bucket].
  run. rewrite checked_bucket, checked_requests.
  by rewrite <- app_assoc.
Qed.

(** A record for a key whose stored text decodes to a record and does not
    mention the tombstone field. *)
Lemma record_over_stored stream record te w pk attr e bytes d :
  keyed_and_valid w stream record pk →
  bookmark_attr_of stream w = Some attr →
  KV.entries (bucket w) !! store_key key_prefix stream pk = Some e →
  KV.value e = Some bytes → bytes ≠ EmptyString →
  utf8_valid bytes = true → json_loads bytes = Some (JObj d) →
  contains "_sdc_deleted_at" bytes = false →
  let r := on_message key_prefix (RecordMessage stream record te) w in
  let key := store_key key_prefix stream pk in
  let E := enriched te (utcnow_isoformat (clock_reads w)) record in
  same_registries w (fst r) ∧ snd r = Continue ∧
  if str_gt (freshness attr E) (freshness attr d) then
    bucket (fst r) = KV.write key (json_dumps E) (bucket w) ∧
    requests (fst r) =
      requests w ++ [Get key; Update key (json_dumps E) (KV.revision e)]
  else
    bucket (fst r) = bucket w ∧ requests (fst r) = requests w ++ [Get key].
Proof.
  intros Hkv Hb Hk Hv Hne Hu Hl Hc r key E.
  destruct (on_message_record_effect key_prefix stream record te w) as [Hreg _].
  split; [exact Hreg|]. subst r.
  rewrite on_message_record, (on_record_pass key_prefix _ _ _ _ _ Hkv).
  rewrite <- (checked_bucket stream pk record w) in Hk.
  rewrite <- (checked_bookmark_attr stream pk record w) in Hb.
  erewrite resolve_compare by eauto. fold E key.
  destruct (str_gt (freshness attr E) (freshness attr d)); run;
    rewrite checked_bucket, checked_requests; by rewrite <- ?app_assoc.
Qed.


(** X10 (lines 165-223).  Replay: a record that passes the checks and has
    the bookmark field, for a key that is not in the bucket, whose
    enriched serialisation is read back as the enriched record (not empty,
    well-formed UTF-8, decoded by [json.loads] to that record) and does
    not contain the text [_sdc_deleted_at]: sent a second time right after
    it was created, it is skipped as not newer; the only request is the
    get and the bucket is unchanged. *)
Theorem X10_replay_is_skipped stream attr pk record te w :
  keyed_and_valid w stream record pk →
  bookmark_attr_of stream w = Some attr →
  dict_mem attr record = true →
  KV.entries (bucket w) !! store_key key_prefix stream pk = None →
  let key := store_key key_prefix stream pk in
  let E1 := enriched te (utcnow_isoformat (clock_reads w)) record in
  let w1 := fst (on_message key_prefix (RecordMessage stream record te) w) in
  let r2 := on_message key_prefix (RecordMessage stream record te) w1 in
  reads_back E1 → contains "_sdc_deleted_at" (json_dumps E1) = false →
  bucket (fst r2) = bucket w1 ∧
  requests (fst r2) = requests w1 ++ [Get key] ∧
  snd r2 = Continue.
Proof.
  intros Hkv Hb Hm Hk key E1 w1 r2 (Hne & Hu & Hl) Hc.
  destruct (record_created stream record te w pk attr Hkv Hb Hk)
    as (Hreg & Hbk1 & _). fold w1 key E1 in Hreg, Hbk1.
  assert (KV.entries (bucket w1) !! key =
          Some {| KV.value := Some (json_dumps E1);
                  KV.revision := (KV.seq (bucket w) + 1)%Z |}) as Hk1
    by (rewrite Hbk1; apply write_lookup).
  pose proof (record_over_stored stream record te w1 pk attr _ _ E1
                (keyed_and_valid_registries _ _ _ _ _ Hreg Hkv)
                (eq_trans (bookmark_attr_registries _ _ _ Hreg) Hb)
                Hk1 eq_refl Hne Hu Hl Hc) as (_ & Hf & Hr).
  cbn zeta in Hr. fold r2 key in Hr, Hf. unfold E1 in Hr.
  rewrite !freshness_enriched, str_gt_irrefl in Hr by done.
  by destruct Hr.
Qed.

(** X11 (lines 165-230).  The order of arrival does not decide: of two
    records that pass the checks, for a key that is not in the bucket,
    that both have the bookmark field, the second strictly fresher than
    the first, each with an enriched serialisation that is read back as
    the enriched record (not empty, well-formed UTF-8, decoded by
    [json.loads] to that record) and does not contain the text
    [_sdc_deleted_at]: the bucket ends with the fresher one, enriched,
    whichever of the two comes first. *)
Theorem X11_order_does_not_matter stream attr pk record1 te1 record2 te2 w :
  keyed_and_valid w stream record1 pk →
  keyed_and_valid w stream record2 pk →
  bookmark_attr_of stream w = Some attr →
  dict_mem attr record1 = true → dict_mem attr record2 = true →
  str_gt (freshness attr record2) (freshness attr record1) = true →
  KV.entries (bucket w) !! store_key key_prefix stream pk = None →
  let key := store_key key_prefix stream pk in
  let now := utcnow_isoformat (clock_reads w) in
  let m1 := RecordMessage stream record1 te1 in
  let m2 := RecordMessage stream record2 te2 in
  let w12 := fst (on_message key_prefix m2 (fst (on_message key_prefix m1 w))) in
  let w21 := fst (on_message key_prefix m1 (fst (on_message key_prefix m2 w))) in
  reads_back (enriched te1 now record1) →
  reads_back (enriched te2 now record2) →
  contains "_sdc_deleted_at" (json_dumps (enriched te1 now record1)) = false →
  contains "_sdc_deleted_at" (json_dumps (enriched te2 now record2)) = false →
  (∃ now12, KV.value <$> KV.entries (bucket w12) !! key =
            Some (Some (json_dumps (enriched te2 now12 record2)))) ∧
  (∃ now21, KV.value <$> KV.entries (bucket w21) !! key =
            Some (Some (json_dumps (enriched te2 now21 record2)))).
Proof.
  intros Hkv1 Hkv2 Hb Hm1 Hm2 Hgt Hk key now m1 m2 w12 w21
         (Hne1 & Hu1 & Hl1) (Hne2 & Hu2 & Hl2) Hc1 Hc2.
  subst w12 w21 m1 m2. split.
  - destruct (record_created stream record1 te1 w pk attr Hkv1 Hb Hk)
      as (Hreg & Hbk1 & _).
    set (w1 := fst (on_message key_prefix (RecordMessage stream record1 te1) w))
      in *.
    assert (KV.entries (bucket w1) !! key =
            Some {| KV.value := Some (json_dumps (enriched te1 now record1));
                    KV.revision := (KV.seq (bucket w) + 1)%Z |}) as Hk1
      by (rewrite Hbk1; apply write_lookup).
    pose proof (record_over_stored stream record2 te2 w1 pk attr _ _ _
                  (keyed_and_valid_registries _ _ _ _ _ Hreg Hkv2)
                  (eq_trans (bookmark_attr_registries _ _ _ Hreg) Hb)
                  Hk1 eq_refl Hne1 Hu1 Hl1 Hc1) as (_ & _ & Hr).
    cbn zeta in Hr. rewrite !freshness_enriched, Hgt in Hr by done.
    destruct Hr as [Hr _]. exists (utcnow_isoformat (clock_reads w1)).
    rewrite Hr. by rewrite write_lookup.
  - destruct (record_created stream record2 te2 w pk attr Hkv2 Hb Hk)
      as (Hreg & Hbk2 & _).
    set (w2 := fst (on_message key_prefix (RecordMessage stream record2 te2) w))
      in *.
    assert (KV.entries (bucket w2) !! key =
            Some {| KV.value := Some (json_dumps (enriched te2 now record2));
                    KV.revision := (KV.seq (bucket w) + 1)%Z |}) as Hk2
      by (rewrite Hbk2; apply write_lookup).
    pose proof (record_over_stored stream record1 te1 w2 pk attr _ _ _
                  (keyed_and_valid_registries _ _ _ _ _ Hreg Hkv1)
                  (eq_trans (bookmark_attr_registries _ _ _ Hreg) Hb)
                  Hk2 eq_refl Hne2 Hu2 Hl2 Hc2) as (_ & _ & Hr).
    cbn zeta in Hr.
    rewrite !freshness_enriched, (str_gt_asym _ _ Hgt) in Hr by done.
    destruct Hr as [Hr _]. exists now.
    by rewrite Hr, Hk2.
Qed.
End TwoRecords.

(** *** The lines of the input and the output of [main] *)

Lemma concat_text_lines s : concat_lines (text_lines s) = s.
Proof.
  induction s as [|c s IH]; cbn [text_lines]; [done|].
  destruct (Ascii.eqb c newline).
  - cbn. by rewrite <- IH at 2.
  - destruct (text_lines s) as [|l ls]; cbn in *; by rewrite <- IH.
Qed.

Lemma is_line_cons c l :
  is_line l = true → c ≠ newline → is_line (String c l) = true.
Proof.
  intros Hl Hc. destruct l as [|c' l']; [done|].
  cbn [is_line] in *. apply Ascii.eqb_neq in Hc. by rewrite Hc.
Qed.

Lemma text_lines_are_lines s : Forall (λ l, is_line l = true) (text_lines s).
Proof.
  induction s as [|c s IH]; cbn [text_lines]; [done|].
  destruct (Ascii.eqb c newline) eqn:Hc.
  - by constructor.
  - apply Ascii.eqb_neq in Hc.
    destruct (text_lines s) as [|l ls]; [by repeat constructor|].
    apply Forall_cons_1 in IH as [Hl Hls].
    constructor; [by apply is_line_cons | done].
Qed.

Lemma ends_with_newline_cons c l :
  l ≠ EmptyString → ends_with_newline (String c l) = ends_with_newline l.
Proof. by destruct l. Qed.

Lemma text_lines_end s i l :
  text_lines s !! i = Some l → S i < length (text_lines s) →
  ends_with_newline l = true.
Proof.
  revert i l. induction s as [|c s IH]; intros i l; cbn [text_lines]; [done|].
  destruct (Ascii.eqb c newline) eqn:Hc.
  - destruct i as [|i]; cbn.
    + intros [= <-] _. cbn. done.
    + intros Hl Hi. apply (IH i l Hl). lia.
  - pose proof (text_lines_are_lines s) as Hlines.
    destruct (text_lines s) as [|l0 ls]; cbn.
    + intros _ Hi. lia.
    + apply Forall_cons_1 in Hlines as [Hl0 _].
      destruct i as [|i]; cbn.
      * intros [= <-] Hi. rewrite ends_with_newline_cons by (by destruct l0).
        apply (IH 0 l0 eq_refl). cbn. lia.
      * intros Hl Hi. apply (IH (S i) l Hl). cbn. lia.
Qed.

Lemma universal_newlines_id s :
  contains (String carriage_return EmptyString) s = false →
  universal_newlines s = s.
Proof.
  induction s as [|c s IH]; [done|]. intros Hc.
  apply contains_char_cons in Hc as [Hne Hc]. cbn [universal_newlines].
  apply Ascii.eqb_neq in Hne. rewrite Hne. by rewrite IH.
Qed.

(** X15 (lines 41-49).  The lines read from standard input, put one after
    the other, are the input with its line ends translated; every line is
    non-empty and has no [\n] before its last character; every line but
    the last ends in [\n]; and for input without [\r] the lines put one
    after the other are the input itself. *)
Theorem X15_lines_of_the_input stdin :
  let lines := next_singer_message stdin in
  concat_lines lines = universal_newlines stdin ∧
  Forall (λ l, is_line l = true) lines ∧
  (∀ i l, lines !! i = Some l → S i < length lines →
          ends_with_newline l = true) ∧
  (contains (String carriage_return EmptyString) stdin = false →
   concat_lines lines = stdin).
Proof.
  intros lines. subst lines. unfold next_singer_message.
  split; [apply concat_text_lines|]. split; [apply text_lines_are_lines|].
  split; [apply text_lines_end|].
  intros Hc. by rewrite concat_text_lines, universal_newlines_id.
Qed.

Section Output.
Context `{Libs}.
Variable key_prefix : string.



End Output.

(** ** The further properties on concrete inputs *)

(** With a dot in a stream name two records of different streams can get
    the same key. *)
Example dotted_streams_collide :
  store_key "lfx." "a.b" "c" = store_key "lfx." "a" "b.c".
Proof. reflexivity. Qed.

(** A checkpoint line ended by [\r\n] and an unsupported message without
    line end: two lines are read, and [main] writes the checkpoint. *)
Example main_on_two_lines :
  next_singer_message (Ref.jq Cases.two_lines) =
    [Ref.jq state_x +:+ String newline EmptyString; Ref.jq activate_version] ∧
  main Ref.dumps EmptyString empty_bucket (Ref.jq Cases.two_lines) =
    [Ref.jq "{'x': 1}" +:+ String newline EmptyString].
Proof. vm_compute. by split. Qed.

(** X1 at a stream with two key properties. *)
Lemma X1_witness :
  let w := after_schema Cases.schema_two_keys empty_bucket in
  schemas w !! "s" = Some (JObj []) ∧
  (∀ kp, key_properties w !! "s" ≠ Some [kp]) ∧
  on_message EmptyString (RecordMessage "s" rec_id_only None) w =
  (add_log (WarnNeedsOneKeyProperty "s") w, Continue).
Proof.
  intros w.
  assert (schemas w !! "s" = Some (JObj [])) as Hs by (vm_compute; reflexivity).
  assert (∀ kp, key_properties w !! "s" ≠ Some [kp]) as Hk
    by (intros kp Hkp; vm_compute in Hkp; congruence).
  split; [exact Hs|]. split; [exact Hk|].
  exact (X1_key_property_count EmptyString "s" rec_id_only None w (JObj [])
           Hs Hk).
Defined.

(** X2 at a record without the key property [id]. *)
Lemma X2_witness :
  let w := after_schema schema_plain empty_bucket in
  schemas w !! "s" = Some (JObj []) ∧
  key_properties w !! "s" = Some ["id"] ∧
  dict_mem "id" Cases.rec_no_id = false ∧
  on_message EmptyString (RecordMessage "s" Cases.rec_no_id None) w =
  (add_log (WarnMissingKeyProperty "s" "id") w, Continue).
Proof.
  intros w.
  assert (schemas w !! "s" = Some (JObj [])) as Hs by (vm_compute; reflexivity).
  assert (key_properties w !! "s" = Some ["id"]) as Hk
    by (vm_compute; reflexivity).
  assert (dict_mem "id" Cases.rec_no_id = false) as Hm by reflexivity.
  split; [exact Hs|]. split; [exact Hk|]. split; [exact Hm|].
  exact (X2_missing_key_property EmptyString "s" Cases.rec_no_id None w
           (JObj []) "id" Hs Hk Hm).
Defined.

(** X3 at a record with an empty primary key and at one whose primary key
    starts with [$]. *)
Lemma X3_witness :
  let w := after_schema schema_plain empty_bucket in
  schemas w !! "s" = Some (JObj []) ∧
  key_properties w !! "s" = Some ["id"] ∧
  on_message EmptyString (RecordMessage "s" Cases.rec_empty_id None) w =
    (add_log (WarnEmptyPrimaryKey "s") w, Continue) ∧
  on_message EmptyString (RecordMessage "s" Cases.rec_dollar_id None) w =
    (add_log (WarnPrimaryKeyDollar "s") w, Continue).
Proof.
  intros w.
  assert (schemas w !! "s" = Some (JObj [])) as Hs by (vm_compute; reflexivity).
  assert (key_properties w !! "s" = Some ["id"]) as Hk
    by (vm_compute; reflexivity).
  split; [exact Hs|]. split; [exact Hk|]. split.
  - exact (proj1 (X3_empty_or_reserved_key EmptyString "s" Cases.rec_empty_id
                    None w (JObj []) "id" (JStr EmptyString) Hs Hk eq_refl)
             eq_refl).
  - exact (proj2 (X3_empty_or_reserved_key EmptyString "s" Cases.rec_dollar_id
                    None w (JObj []) "id" (JStr "$sys") Hs Hk eq_refl)
             eq_refl).
Defined.

(** X4 at a record whose [amount] is a string, for a schema that wants a
    number. *)
Lemma X4_witness :
  let w := after_schema Cases.schema_typed empty_bucket in
  validators w !! "s" = Some Cases.typed_schema ∧
  validate Cases.typed_schema Cases.rec_amount_text =
    ValidationError "'ten' is not of type 'number'" "amount" ∧
  on_message EmptyString (RecordMessage "s" Cases.rec_amount_text None) w =
  (add_log (WarnSchemaValidation "1" "s" "'ten' is not of type 'number'"
              "amount")
     (add_logs (invalid_character_warnings "s" "1") w), Continue).
Proof.
  intros w.
  assert (validators w !! "s" = Some Cases.typed_schema) as Hv
    by (vm_compute; reflexivity).
  assert (validate Cases.typed_schema Cases.rec_amount_text =
          ValidationError "'ten' is not of type 'number'" "amount") as Hr
    by (vm_compute; reflexivity).
  split; [exact Hv|]. split; [exact Hr|].
  exact (proj1 (X4_validation_failure EmptyString "s" Cases.rec_amount_text
                  None w Cases.typed_schema "id" (JStr "1") Cases.typed_schema
                  ltac:(vm_compute; reflexivity)
                  ltac:(vm_compute; reflexivity)
                  ltac:(reflexivity)
                  ltac:(discriminate)
                  ltac:(discriminate)
                  Hv)
           _ _ Hr).
Defined.

(** X5 at two keys of the stream [s] under the prefix [lfx.]. *)
Lemma X5_witness :
  contains "." "s" = false ∧
  store_key "lfx." "s" "a.b" = store_key "lfx." "s" "a.b" ∧
  "s" = "s" ∧ "a.b" = "a.b".
Proof.
  assert (contains "." "s" = false) as Hs by reflexivity.
  split; [exact Hs|]. split; [reflexivity|].
  exact (X5_store_key_injective "lfx." "s" "a.b" "s" "a.b" Hs Hs eq_refl).
Defined.

(** X8 at an input with a schema, a checkpoint and an unsupported
    message. *)
Lemma X8_witness :
  let input := map Ref.jq [schema_plain; state_x; activate_version] in
  let w := initial (bucket_with stored_2019) in
  (∀ line stream record te,
     line ∈ input →
     parse_message line ≠ Parsed (RecordMessage stream record te)) ∧
  requests (fst (persist_messages EmptyString input w)) = requests w ∧
  bucket (fst (persist_messages EmptyString input w)) = bucket w.
Proof.
  intros input w.
  assert (∀ line stream record te,
            line ∈ input →
            parse_message line ≠ Parsed (RecordMessage stream record te))
    as Hin.
  { intros line stream record te Hl Hp.
    repeat (apply elem_of_cons in Hl as [->|Hl]);
      [vm_compute in Hp; discriminate..|by apply elem_of_nil in Hl]. }
  split; [exact Hin|].
  exact (X8_only_records_reach_the_bucket EmptyString input w Hin).
Defined.


(** X10 at a record of 2021 sent twice. *)
Lemma X10_witness :
  let w := after_schema schema_bookmark empty_bucket in
  let m := RecordMessage "s" rec_2021 None in
  let w1 := fst (on_message EmptyString m w) in
  let r2 := on_message EmptyString m w1 in
  keyed_and_valid w "s" rec_2021 "1" ∧
  reads_back (enriched None (utcnow_isoformat (clock_reads w)) rec_2021) ∧
  bucket (fst r2) = bucket w1 ∧
  requests (fst r2) = requests w1 ++ [Get "s.1"] ∧
  snd r2 = Continue.
Proof.
  intros w m w1 r2.
  assert (keyed_and_valid w "s" rec_2021 "1") as Hkv.
  { exists (JObj []), "id", (JStr "1"), (JObj []).
    vm_compute. repeat split; congruence. }
  assert (reads_back (enriched None (utcnow_isoformat (clock_reads w)) rec_2021))
    as Hrb.
  { vm_compute. repeat split; congruence. }
  split; [exact Hkv|]. split; [exact Hrb|].
  exact (X10_replay_is_skipped EmptyString "s" "updated_at" "1" rec_2021 None w
           Hkv
           ltac:(vm_compute; reflexivity)
           ltac:(reflexivity)
           ltac:(vm_compute; reflexivity)
           Hrb
           ltac:(vm_compute; reflexivity)).
Defined.

(** X11 at the records of 2019 and of 2021. *)
Lemma X11_witness :
  let w := after_schema schema_bookmark empty_bucket in
  let m1 := RecordMessage "s" Cases.rec_2019 None in
  let m2 := RecordMessage "s" rec_2021 None in
  let w12 := fst (on_message EmptyString m2 (fst (on_message EmptyString m1 w))) in
  let w21 := fst (on_message EmptyString m1 (fst (on_message EmptyString m2 w))) in
  keyed_and_valid w "s" Cases.rec_2019 "1" ∧
  keyed_and_valid w "s" rec_2021 "1" ∧
  str_gt (freshness "updated_at" rec_2021)
         (freshness "updated_at" Cases.rec_2019) = true ∧
  (∃ now12, KV.value <$> KV.entries (bucket w12) !! "s.1" =
            Some (Some (json_dumps (enriched None now12 rec_2021)))) ∧
  (∃ now21, KV.value <$> KV.entries (bucket w21) !! "s.1" =
            Some (Some (json_dumps (enriched None now21 rec_2021)))).
Proof.
  intros w m1 m2 w12 w21.
  assert (keyed_and_valid w "s" Cases.rec_2019 "1") as Hkv1.
  { exists (JObj []), "id", (JStr "1"), (JObj []).
    vm_compute. repeat split; congruence. }
  assert (keyed_and_valid w "s" rec_2021 "1") as Hkv2.
  { exists (JObj []), "id", (JStr "1"), (JObj []).
    vm_compute. repeat split; congruence. }
  assert (str_gt (freshness "updated_at" rec_2021)
                 (freshness "updated_at" Cases.rec_2019) = true) as Hgt
    by reflexivity.
  split; [exact Hkv1|]. split; [exact Hkv2|]. split; [exact Hgt|].
  exact (X11_order_does_not_matter EmptyString "s" "updated_at" "1"
           Cases.rec_2019 None rec_2021 None w Hkv1 Hkv2
           ltac:(vm_compute; reflexivity)
           ltac:(reflexivity) ltac:(reflexivity) Hgt
           ltac:(vm_compute; reflexivity)
           ltac:(vm_compute; repeat split; congruence)
           ltac:(vm_compute; repeat split; congruence)
           ltac:(vm_compute; reflexivity)
           ltac:(vm_compute; reflexivity)).
Defined.

(** X12 at a schema message followed by a checkpoint. *)
Lemma X12_witness :
  let w := initial empty_bucket in
  let pre := [Ref.jq schema_plain] in
  let w1 := fst (for_in pre (loop_body EmptyString) w) in
  let value := JObj [("x", JInt 1)] in
  for_in pre (loop_body EmptyString) w = (w1, Next tt) ∧
  parse_message (Ref.jq state_x) = Parsed (StateMessage value) ∧
  persist_messages EmptyString (pre ++ [Ref.jq state_x]) w =
  (set_state value (add_log (DebugSettingState value) w1), Next value).
Proof.
  intros w pre w1 value.
  assert (for_in pre (loop_body EmptyString) w = (w1, Next tt)) as Hpre
    by (vm_compute; reflexivity).
  assert (parse_message (Ref.jq state_x) = Parsed (StateMessage value)) as Hl
    by (vm_compute; reflexivity).
  split; [exact Hpre|]. split; [exact Hl|].
  exact (X12_last_checkpoint_is_returned EmptyString pre (Ref.jq state_x)
           value w w1 Hpre Hl).
Defined.

(** X13 at a run that returns the checkpoint of its state message. *)
Lemma X13_witness :
  let input := map Ref.jq [schema_plain; state_x; record_without_key] in
  let w := initial empty_bucket in
  let w' := fst (persist_messages EmptyString input w) in
  let st := JObj [("x", JInt 1)] in
  persist_messages EmptyString input w = (w', Next st) ∧
  (st = state w ∨ st = JNull ∨
   ∃ line, line ∈ input ∧ parse_message line = Parsed (StateMessage st)).
Proof.
  intros input w w' st.
  assert (persist_messages EmptyString input w = (w', Next st)) as Hrun
    by (vm_compute; reflexivity).
  split; [exact Hrun|].
  exact (X13_checkpoint_provenance EmptyString input w w' st Hrun).
Defined.


